(** * fileshred: a model of the resumable [Shred] procedure

    The development embeds the Go sources of the repository
    (src/shred.go and the second variant kept in src/unnamed/part_000)
    over an explicit model of the file system: directory entries, inodes,
    an entropy source, and a schedule of externally caused failures. *)

From Stdlib Require Import ZArith Ascii String List Lia.
From stdpp Require Import base gmap strings list fin_maps pretty sorting stringmap.

Local Open Scope Z_scope.

(** ** Data model *)

(** [ShredMetadata] of the source: the persisted checkpoint. *)
Record ShredMetadata := mkMeta {
  Pass : Z;
  TempPath : string;
  OriginalPath : string
}.

Definition set_Pass (p : Z) (m : ShredMetadata) : ShredMetadata :=
  mkMeta p (TempPath m) (OriginalPath m).

Definition set_TempPath (t : string) (m : ShredMetadata) : ShredMetadata :=
  mkMeta (Pass m) t (OriginalPath m).

(** [Pass] and the pass count are [int64] in the source: integers taken
    modulo 2^64 into the range from -2^63 to 2^63 - 1. *)
Definition wrap64 (z : Z) : Z := (z + 2 ^ 63) mod 2 ^ 64 - 2 ^ 63.

(** Bytes are integers in [0, 256). *)
Definition bytes := list Z.

Definition quote : string := String (ascii_of_nat 34) EmptyString.
Definition newline : string := String (ascii_of_nat 10) EmptyString.

(** The text [json.Encoder] writes for a checkpoint (escape sequences inside
    the two paths are not modelled). *)
Definition json_text (m : ShredMetadata) : string :=
  "{" +:+ quote +:+ "Pass" +:+ quote +:+ ":" +:+ pretty (Pass m) +:+
  "," +:+ quote +:+ "TempPath" +:+ quote +:+ ":" +:+ quote +:+ TempPath m +:+ quote +:+
  "," +:+ quote +:+ "OriginalPath" +:+ quote +:+ ":" +:+ quote +:+ OriginalPath m +:+ quote +:+
  "}" +:+ newline.

Definition bytes_of_string (s : string) : bytes :=
  map (fun c => Z.of_nat (nat_of_ascii c)) (list_ascii_of_string s).

(** What an inode holds.  The JSON codec is kept abstract, as an opaque
    serialize/deserialize pair: an inode that holds the encoding of [m] is
    [Json m], every other content is [Raw] and does not decode. *)
Inductive Content :=
  | Raw (bs : bytes)
  | Json (m : ShredMetadata).

Definition content_bytes (c : Content) : bytes :=
  match c with
  | Raw bs => bs
  | Json m => bytes_of_string (json_text m)
  end.

Record Inode := mkInode {
  content : Content;
  writable : bool;          (* the caller may open it O_WRONLY *)
  locked : bool             (* another process holds an exclusive flock *)
}.

Definition set_content (c : Content) (f : Inode) : Inode :=
  mkInode c (writable f) (locked f).

Definition inode_size (f : Inode) : Z := Z.of_nat (length (content_bytes (content f))).

(** Errors: the errno values of the system calls used, and the three errors
    that [Shred] makes itself with [fmt.Errorf]. *)
Inductive error :=
  | ENOENT | EACCES | EIO | EBADF | EWOULDBLOCK | EDECODE
  | SizeExceeded        (* "file size exceeds the allowed limit" *)
  | BusyTemp            (* "temporary file is locked by another process" *)
  | BusyFile.           (* "file is locked by another process" *)

(** What the environment does to the next system call. *)
Inductive Fate := Proceed | Eio | Kill.

(** The visible effects of a run, in order. *)
Inductive Event :=
  | EvGuard (p : string) (busy : bool)      (* isFileLocked p returned busy *)
  | EvRename (old new : string)
  | EvCreate (p : string)
  | EvSave (m : ShredMetadata)
  | EvRand (bs : bytes)
  | EvWrite (fd : nat) (bs : bytes)
  | EvTruncate (fd : nat)
  | EvRemove (p : string).

Record World := mkWorld {
  names : gmap string nat;       (* directory entries: path to inode number *)
  inodes : gmap nat Inode;
  fates : list Fate;             (* external failures, one per system call *)
  rng : nat -> Z;                (* the entropy source *)
  cursor : nat;                  (* how much of it was consumed *)
  log : list Event
}.

Definition set_names (ns : gmap string nat) (w : World) : World :=
  mkWorld ns (inodes w) (fates w) (rng w) (cursor w) (log w).
Definition set_inodes (im : gmap nat Inode) (w : World) : World :=
  mkWorld (names w) im (fates w) (rng w) (cursor w) (log w).
Definition set_fates (fs : list Fate) (w : World) : World :=
  mkWorld (names w) (inodes w) fs (rng w) (cursor w) (log w).
Definition set_cursor (c : nat) (w : World) : World :=
  mkWorld (names w) (inodes w) (fates w) (rng w) c (log w).
Definition emit (e : Event) (w : World) : World :=
  mkWorld (names w) (inodes w) (fates w) (rng w) (cursor w) (log w ++ [e]).

(** ** The monad of system calls *)

Inductive Res (A : Type) :=
  | Ok (a : A)
  | Fail (e : error)
  | Killed                 (* the process was killed *)
  | Hang.                  (* a blocking call that does not return *)
Arguments Ok {A} a.
Arguments Fail {A} e.
Arguments Killed {A}.
Arguments Hang {A}.

Definition M (A : Type) : Type := World -> Res A * World.

Definition ret {A} (a : A) : M A := fun w => (Ok a, w).
Definition fail {A} (e : error) : M A := fun w => (Fail e, w).

Definition bind {A B} (m : M A) (k : A -> M B) : M B :=
  fun w =>
    match m w with
    | (Ok a, w1) => k a w1
    | (Fail e, w1) => (Fail e, w1)
    | (Killed, w1) => (Killed, w1)
    | (Hang, w1) => (Hang, w1)
    end.

Notation "'let*' x ':=' m 'in' k" := (bind m (fun x => k))
  (at level 10, x name, m at level 99, k at level 200).

(** Go's [x, err := f(); if err != nil { ... }] where the caller goes on. *)
Definition catch {A} (m : M A) : M (error + A) :=
  fun w =>
    match m w with
    | (Ok a, w1) => (Ok (inr a), w1)
    | (Fail e, w1) => (Ok (inl e), w1)
    | (Killed, w1) => (Killed, w1)
    | (Hang, w1) => (Hang, w1)
    end.

Definition next_fate (w : World) : Fate * World :=
  match fates w with
  | [] => (Proceed, w)
  | f :: fs => (f, set_fates fs w)
  end.

Definition syscall {A} (body : M A) : M A :=
  fun w =>
    match next_fate w with
    | (Proceed, w1) => body w1
    | (Eio, w1) => (Fail EIO, w1)
    | (Kill, w1) => (Killed, w1)
    end.

(** ** System calls *)

Definition file_at (w : World) (p : string) : option (nat * Inode) :=
  match names w !! p with
  | Some i => match inodes w !! i with
              | Some f => Some (i, f)
              | None => None
              end
  | None => None
  end.

Definition os_Stat (p : string) : M Z :=
  syscall (fun w =>
    match file_at w p with
    | Some (_, f) => (Ok (inode_size f), w)
    | None => (Fail ENOENT, w)
    end).

Definition os_Rename (old new : string) : M unit :=
  syscall (fun w =>
    match names w !! old with
    | Some i => (Ok tt, emit (EvRename old new)
                          (set_names (<[new := i]> (delete old (names w))) w))
    | None => (Fail ENOENT, w)
    end).

Definition fresh_ino (w : World) : nat := fresh (dom (inodes w)).

(** [os.Create]: open for writing, creating the file or truncating it. *)
Definition os_Create (p : string) : M nat :=
  syscall (fun w =>
    match names w !! p with
    | Some i =>
        match inodes w !! i with
        | Some f =>
            if writable f
            then (Ok i, emit (EvCreate p)
                          (set_inodes (<[i := set_content (Raw []) f]> (inodes w)) w))
            else (Fail EACCES, w)
        | None => (Fail ENOENT, w)
        end
    | None =>
        let i := fresh_ino w in
        (Ok i, emit (EvCreate p)
                 (set_inodes (<[i := mkInode (Raw []) true false]> (inodes w))
                    (set_names (<[p := i]> (names w)) w)))
    end).

(** [json.NewEncoder(file).Encode(metadata)] *)
Definition Encode (fd : nat) (m : ShredMetadata) : M unit :=
  syscall (fun w =>
    match inodes w !! fd with
    | Some f => (Ok tt, emit (EvSave m)
                          (set_inodes (<[fd := set_content (Json m) f]> (inodes w)) w))
    | None => (Fail EBADF, w)
    end).

Definition os_Open (p : string) : M nat :=
  syscall (fun w =>
    match file_at w p with
    | Some (i, _) => (Ok i, w)
    | None => (Fail ENOENT, w)
    end).

(** [json.NewDecoder(file).Decode(&metadata)] *)
Definition Decode (fd : nat) : M ShredMetadata :=
  syscall (fun w =>
    match inodes w !! fd with
    | Some f => match content f with
                | Json m => (Ok m, w)
                | Raw _ => (Fail EDECODE, w)
                end
    | None => (Fail EBADF, w)
    end).

(** [os.OpenFile(path, os.O_WRONLY, 0)] *)
Definition os_OpenFile (p : string) : M nat :=
  syscall (fun w =>
    match file_at w p with
    | Some (i, f) => if writable f then (Ok i, w) else (Fail EACCES, w)
    | None => (Fail ENOENT, w)
    end).

(** [syscall.Flock(fd, LOCK_EX|LOCK_NB)].  The locks this invocation takes are
    released when it returns and no call of the modelled code looks at them,
    so only the locks of other processes are part of the state. *)
Definition Flock_NB (fd : nat) : M unit :=
  syscall (fun w =>
    match inodes w !! fd with
    | Some f => if locked f then (Fail EWOULDBLOCK, w) else (Ok tt, w)
    | None => (Fail EBADF, w)
    end).

(** [syscall.Flock(fd, LOCK_EX)]: waits while another process holds the lock. *)
Definition Flock (fd : nat) : M unit :=
  syscall (fun w =>
    match inodes w !! fd with
    | Some f => if locked f then (Hang, w) else (Ok tt, w)
    | None => (Fail EBADF, w)
    end).

Definition draw (r : nat -> Z) (c n : nat) : bytes :=
  map (fun k => r k mod 256) (seq c n).

(** [rand.Read(b)] for a buffer of [n] bytes. *)
Definition rand_Read (n : nat) : M bytes :=
  syscall (fun w =>
    let bs := draw (rng w) (cursor w) n in
    (Ok bs, emit (EvRand bs) (set_cursor (cursor w + n)%nat w))).

Definition overwrite (bs old : bytes) : bytes := bs ++ drop (length bs) old.

(** [file.WriteAt(b, 0)] *)
Definition WriteAt0 (fd : nat) (bs : bytes) : M unit :=
  syscall (fun w =>
    match inodes w !! fd with
    | Some f =>
        (Ok tt, emit (EvWrite fd bs)
                  (set_inodes
                     (<[fd := set_content (Raw (overwrite bs (content_bytes (content f)))) f]>
                        (inodes w)) w))
    | None => (Fail EBADF, w)
    end).

(** [file.Truncate(0)] *)
Definition Truncate0 (fd : nat) : M unit :=
  syscall (fun w =>
    match inodes w !! fd with
    | Some f => (Ok tt, emit (EvTruncate fd)
                          (set_inodes (<[fd := set_content (Raw []) f]> (inodes w)) w))
    | None => (Fail EBADF, w)
    end).

Definition os_Remove (p : string) : M unit :=
  syscall (fun w =>
    match names w !! p with
    | Some _ => (Ok tt, emit (EvRemove p) (set_names (delete p (names w)) w))
    | None => (Fail ENOENT, w)
    end).

(** ** The helpers of the source *)

Definition meta_suffix : string := ".shredmeta".

(** [saveMetadata]: create (or truncate) the checkpoint and encode into it. *)
Definition saveMetadata (metadata : ShredMetadata) : M unit :=
  let* file := os_Create (OriginalPath metadata +:+ meta_suffix) in
  Encode file metadata.

Definition zero_metadata : ShredMetadata := mkMeta 0 "" "".

(** [loadMetadata] returns the pair of Go: the record and the error.  Its
    caller does not read the record when the error is set. *)
Definition loadMetadata (path : string) : M (ShredMetadata * option error) :=
  let* r := catch (os_Open (path +:+ meta_suffix)) in
  match r with
  | inl e => ret (zero_metadata, Some e)
  | inr file =>
      let* d := catch (Decode file) in
      match d with
      | inl e => ret (zero_metadata, Some e)
      | inr metadata => ret (metadata, None)
      end
  end.

Definition charset : string :=
  "abcdefghijklmnopqrstuvwxyzABCDEFGHIJKLMNOPQRSTUVWXYZ0123456789".

(** [charset[int(b) % len(charset)]] *)
Definition pick (b : Z) : ascii :=
  nth (Z.to_nat (b mod Z.of_nat (String.length charset)))
      (list_ascii_of_string charset) "a"%char.

(** [randomString] *)
Definition randomString (length : nat) : M string :=
  let* b := rand_Read length in
  ret (string_of_list_ascii (map pick b)).

Definition size_limit : Z := 1024 * 1024 * 1024.

(** The rename loop shared by both variants of [Shred]:
    [for i := 0; i < 10; i++ { ... }], here with the count as argument. *)
Fixpoint rename_rounds (n : nat) (metadata : ShredMetadata) : M ShredMetadata :=
  match n with
  | O => ret metadata
  | S n' =>
      let* newName := randomString 12 in
      let newPath := TempPath metadata +:+ "." +:+ newName in
      let* _ := os_Rename (TempPath metadata) newPath in
      let metadata := set_TempPath newPath metadata in
      let* _ := saveMetadata metadata in
      rename_rounds n' metadata
  end.

(** What both variants do after the renames: truncate, remove the
    checkpoint, remove the file. *)
Definition finish (tempFile : nat) (metadata : ShredMetadata) : M unit :=
  let* _ := Truncate0 tempFile in
  let* _ := os_Remove (OriginalPath metadata +:+ meta_suffix) in
  os_Remove (TempPath metadata).

(** [if metadata.TempPath == "" { ... }]: the first rename, done once. *)
Definition rename_once (path : string) (metadata : ShredMetadata) : M ShredMetadata :=
  if decide (TempPath metadata = "")
  then
    let tempPath := path +:+ ".tmp" in
    let* _ := os_Rename path tempPath in
    let metadata := set_TempPath tempPath metadata in
    let* _ := saveMetadata metadata in
    ret metadata
  else ret metadata.

(** [metadata, err := loadMetadata(path); if err != nil { metadata = ... }] *)
Definition load_or_init (path : string) : M ShredMetadata :=
  let* r := loadMetadata path in
  match r with
  | (metadata, None) => ret metadata
  | (_, Some _) => ret (mkMeta 0 "" path)
  end.

(** ** src/shred.go *)

Module ShredGo.

(** [isFileLocked] *)
Definition isFileLocked (path : string) : M bool :=
  let* busy :=
    (let* r := catch (os_OpenFile path) in
     match r with
     | inl _ => ret false
     | inr file =>
         let* l := catch (Flock_NB file) in
         match l with
         | inl _ => ret true
         | inr _ => ret false
         end
     end) in
  fun w => (Ok busy, emit (EvGuard path busy) w).

(** The overwrite loop [for i := metadata.Pass; i < passes; i++ { ... }]:
    [n] is the number of iterations left, [passes - i] when positive.  The
    increment cannot wrap, [i + 1 <= passes]. *)
Fixpoint overwrite_passes (n : nat) (i : Z) (tempFile : nat) (size : nat)
    (metadata : ShredMetadata) : M ShredMetadata :=
  match n with
  | O => ret metadata
  | S n' =>
      let* randomData := rand_Read size in
      let* _ := WriteAt0 tempFile randomData in
      let metadata := set_Pass (i + 1) metadata in
      let* _ := saveMetadata metadata in
      overwrite_passes n' (i + 1) tempFile size metadata
  end.

Definition Shred (path : string) (passes : Z) : M unit :=
  let* info := os_Stat path in
  if size_limit <? info then fail SizeExceeded else
  let* metadata := load_or_init path in
  let* metadata := rename_once path metadata in
  let* busy := isFileLocked (TempPath metadata) in
  if busy then fail BusyTemp else
  let* tempFile := os_OpenFile (TempPath metadata) in
  let* _ := Flock tempFile in
  let* metadata :=
    overwrite_passes (Z.to_nat (passes - Pass metadata)) (Pass metadata)
      tempFile (Z.to_nat info) metadata in
  let* metadata := rename_rounds 10 metadata in
  finish tempFile metadata.

End ShredGo.

(** ** src/unnamed/part_000 *)

Module Part000.

(** [isFileLocked] of this file returns false at once; the rest of its body
    is not reached. *)
Definition isFileLocked (path : string) : M bool :=
  fun w => (Ok false, emit (EvGuard path false) w).

Fixpoint overwrite_passes (n : nat) (i : Z) (tempFile : nat) (size : nat)
    (metadata : ShredMetadata) : M ShredMetadata :=
  match n with
  | O => ret metadata
  | S n' =>
      let* busy := isFileLocked (TempPath metadata) in
      if busy then fail BusyTemp else
      let* randomData := rand_Read size in
      let* _ := WriteAt0 tempFile randomData in
      let metadata := set_Pass (i + 1) metadata in
      let* _ := saveMetadata metadata in
      overwrite_passes n' (i + 1) tempFile size metadata
  end.

Definition Shred (path : string) (passes : Z) : M unit :=
  let* info := os_Stat path in
  if size_limit <? info then fail SizeExceeded else
  let* busy := isFileLocked path in
  if busy then fail BusyFile else
  let* metadata := load_or_init path in
  let* file := os_OpenFile path in
  let* _ := Flock file in
  let size := info in
  let* metadata := rename_once path metadata in
  let* tempFile := os_OpenFile (TempPath metadata) in
  let* metadata :=
    overwrite_passes (Z.to_nat (passes - Pass metadata)) (Pass metadata)
      tempFile (Z.to_nat size) metadata in
  let* metadata := rename_rounds 10 metadata in
  finish tempFile metadata.

End Part000.

(** ** More system calls *)

(** [file.Stat()] of an open file. *)
Definition File_Stat (fd : nat) : M Z :=
  syscall (fun w =>
    match inodes w !! fd with
    | Some f => (Ok (inode_size f), w)
    | None => (Fail EBADF, w)
    end).

(** The content after [bs] is written at offset [off]: a write that ends past
    the end extends the file, one that starts past the end leaves zeros in
    between, and a write of no byte changes nothing. *)
Definition write_at (bs : bytes) (off : nat) (old : bytes) : bytes :=
  match bs with
  | [] => old
  | _ => resize off 0 old ++ bs ++ drop (off + length bs) old
  end.

(** [file.WriteAt(b, off)].  Go rejects a negative offset before it calls the
    system, with an error of its own; the model has no separate value for
    that error. *)
Definition WriteAt (fd : nat) (bs : bytes) (off : Z) : M unit :=
  if off <? 0 then fail EIO else
  syscall (fun w =>
    match inodes w !! fd with
    | Some f =>
        (Ok tt, emit (EvWrite fd bs)
                  (set_inodes
                     (<[fd := set_content
                                (Raw (write_at bs (Z.to_nat off) (content_bytes (content f)))) f]>
                        (inodes w)) w))
    | None => (Fail EBADF, w)
    end).

(** [file.Sync()] *)
Definition Sync (fd : nat) : M unit :=
  syscall (fun w =>
    match inodes w !! fd with
    | Some _ => (Ok tt, w)
    | None => (Fail EBADF, w)
    end).

(** The name [ioutil.TempFile("", "shredtemp")] gives the new file: the
    directory for temporary files, the pattern, and random digits, tried
    again until the name is not in use.  The model takes a name of that
    form that is not in use. *)
Definition temp_name (w : World) : string := fresh_string "/tmp/shredtemp" (names w).

(** [ioutil.TempFile("", "shredtemp")]: the new, empty file and its name. *)
Definition TempFile : M (nat * string) :=
  syscall (fun w =>
    let p := temp_name w in
    let i := fresh_ino w in
    (Ok (i, p), emit (EvCreate p)
                  (set_inodes (<[i := mkInode (Raw []) true false]> (inodes w))
                     (set_names (<[p := i]> (names w)) w)))).

(** [defer cleanup] before [body]: [cleanup] runs when [body] returns, with
    an error or without, and what it returns is dropped. *)
Definition defer {A} (cleanup : M unit) (body : M A) : M A :=
  fun w =>
    match body w with
    | (Killed, w1) => (Killed, w1)
    | (Hang, w1) => (Hang, w1)
    | (r, w1) =>
        match cleanup w1 with
        | (Killed, w2) => (Killed, w2)
        | (Hang, w2) => (Hang, w2)
        | (_, w2) => (r, w2)
        end
    end.

(** ** src/shred.go: [overwriteDevice] *)

(** [randomData := make([]byte, 4096)]: the length of the buffer. *)
Definition block_size : nat := 4096.

(** The loop [for written := int64(0); written < size; written += 4096].
    [written] is an [int64], so the increment wraps.  [fuel] bounds the
    number of iterations. *)
Fixpoint write_blocks (fuel : nat) (device : nat) (size written : Z) : M unit :=
  match fuel with
  | O => if written <? size then (fun w => (Hang, w)) else ret tt
  | S fuel' =>
      if written <? size then
        let* randomData := rand_Read block_size in
        let* _ := WriteAt device randomData written in
        write_blocks fuel' device size (wrap64 (written + 4096))
      else ret tt
  end.

(** [overwriteDevice] *)
Definition overwriteDevice (devicePath : string) : M unit :=
  let* device := os_OpenFile devicePath in
  let* info := File_Stat device in
  let size := info in
  write_blocks (Z.to_nat (size / 4096) + 2) device size 0.

(** ** src/shred.go, second part: the [Shred] that works on a temporary file *)

Module ShredTemp.

(** [for i := 0; i < passes; i++ { WriteAt; Sync }] *)
Fixpoint write_passes (n : nat) (tempFile : nat) (randomData : bytes) : M unit :=
  match n with
  | O => ret tt
  | S n' =>
      let* _ := WriteAt0 tempFile randomData in
      let* _ := Sync tempFile in
      write_passes n' tempFile randomData
  end.

Definition Shred (path : string) (passes : Z) : M unit :=
  let* file := os_OpenFile path in
  let* _ := Flock file in
  let* info := File_Stat file in
  let size := info in
  let* randomData := rand_Read (Z.to_nat size) in
  let* t := TempFile in
  let '(tempFile, name) := t in
  defer (os_Remove name)
    (let* _ := write_passes (Z.to_nat passes) tempFile randomData in
     let* _ := Sync tempFile in
     let* _ := os_Rename name path in
     os_Remove path).

End ShredTemp.

(** ** Worlds to run on *)

(** An entropy source for examples: byte [k] is [k mod 256]. *)
Definition zero_rng : nat -> Z := fun k => Z.of_nat k.

(** One writable, unlocked file [p] with content [bs]. *)
Definition disk1 (p : string) (bs : bytes) (fs : list Fate) : World :=
  mkWorld {[ p := 0%nat ]} {[ 0%nat := mkInode (Raw bs) true false ]} fs zero_rng 0 [].

(** A 3-byte file "f" and an environment that does not interfere. *)
Definition calm_disk : World := disk1 "f" [1; 2; 3] [].

(** * Vocabulary for the statements *)

(** ** Specifications of a step *)

(** [emits m w s Q]: whatever the environment does, the events of running
    [m] from [w] are a prefix of the script [s]; when [m] returns they are
    all of [s] and [Q] holds of the value and the final world. *)
Definition emits {A} (m : M A) (w : World) (s : list Event)
    (Q : A -> World -> Prop) : Prop :=
  forall r w', m w = (r, w') ->
    exists D, log w' = log w ++ D /\ rng w' = rng w /\ D `prefix_of` s /\
      forall a, r = Ok a -> D = s /\ Q a w'.

(** [w'] differs from [w] in the failure schedule only. *)
Definition quiet (w w' : World) : Prop :=
  names w' = names w /\ inodes w' = inodes w /\ log w' = log w /\
  rng w' = rng w /\ cursor w' = cursor w.

(** [m] does not fail with the error [e]. *)
Definition never {A} (e : error) (m : M A) : Prop :=
  forall w r w', m w = (r, w') -> r <> Fail e.

(** [keeps Inv m phi]: running [m] preserves [Inv] whatever happens, and the
    value it returns satisfies [phi]. *)
Definition keeps (Inv : World -> Prop) {A} (m : M A) (phi : A -> Prop) : Prop :=
  forall w r w', Inv w -> m w = (r, w') ->
    Inv w' /\ forall a, r = Ok a -> phi a.

(** ** What [Shred] finds when it starts *)

(** The size that [os.Stat] reports for [p]. *)
Definition size_at (w : World) (p : string) : Z :=
  match file_at w p with
  | Some (_, f) => inode_size f
  | None => 0
  end.

(** What [load_or_init] may return: the fresh record, or the record that the
    checkpoint of [path] holds. *)
Definition loaded (w : World) (path : string) (md0 : ShredMetadata) : Prop :=
  md0 = mkMeta 0 "" path \/
  exists i f, file_at w (path +:+ meta_suffix) = Some (i, f) /\ content f = Json md0.

(** The name under which the file to overwrite is found when [Shred] starts:
    the original path for a fresh job, the recorded path for a resumed one. *)
Definition working_name (path : string) (md0 : ShredMetadata) : string :=
  if decide (TempPath md0 = "") then path else TempPath md0.

(** The record after [rename_once]. *)
Definition started (path : string) (md0 : ShredMetadata) : ShredMetadata :=
  if decide (TempPath md0 = "") then set_TempPath (path +:+ ".tmp") md0 else md0.

(** What "nothing on disk changed" means: the same directory entries, the
    same inodes, and no event. *)
Definition untouched (w w' : World) : Prop :=
  names w' = names w /\ inodes w' = inodes w /\ log w' = log w.

(** Paths that [os.OpenFile(path, os.O_WRONLY, 0)] cannot open. *)
Definition unopenable (w : World) (p : string) : Prop :=
  match file_at w p with
  | None => True
  | Some (_, f) => writable f = false
  end.

(** A checkpoint found for [path] was written by [Shred] for that path: it
    names [path] as the original, and the working file is not the checkpoint
    itself. *)
Definition wf_checkpoint (w : World) (path : string) : Prop :=
  forall i f m,
    file_at w (path +:+ meta_suffix) = Some (i, f) -> content f = Json m ->
    OriginalPath m = path /\ TempPath m <> path +:+ meta_suffix.

(** ** Scripts: the events of a run that nothing interrupts *)

(** The two events of [saveMetadata]. *)
Definition save_script (md : ShredMetadata) : list Event :=
  [EvCreate (OriginalPath md +:+ meta_suffix); EvSave md].

(** The string [randomString] makes of the bytes it draws. *)
Definition suffix_of (bs : bytes) : string := string_of_list_ascii (map pick bs).

(** One overwrite pass; [guarded] adds the contention check of part_000. *)
Definition pass_script (guarded : bool) (i : Z) (fd size : nat)
    (md : ShredMetadata) (r : nat -> Z) (c : nat) : list Event :=
  (if guarded then [EvGuard (TempPath md) false] else []) ++
  [EvRand (draw r c size); EvWrite fd (draw r c size)] ++
  save_script (set_Pass (i + 1) md).

(** The passes [i], [i + 1], ... of the overwrite loop, [n] of them. *)
Fixpoint overwrite_script (guarded : bool) (n : nat) (i : Z) (fd size : nat)
    (md : ShredMetadata) (r : nat -> Z) (c : nat) : list Event :=
  match n with
  | O => []
  | S n' =>
      pass_script guarded i fd size md r c ++
      overwrite_script guarded n' (i + 1) fd size (set_Pass (i + 1) md) r (c + size)
  end.

(** The record after these passes. *)
Fixpoint overwrite_result (n : nat) (i : Z) (md : ShredMetadata) : ShredMetadata :=
  match n with
  | O => md
  | S n' => overwrite_result n' (i + 1) (set_Pass (i + 1) md)
  end.

(** The record after one rename round that draws its suffix at [c]. *)
Definition renamed (md : ShredMetadata) (r : nat -> Z) (c : nat) : ShredMetadata :=
  set_TempPath (TempPath md +:+ "." +:+ suffix_of (draw r c 12)) md.

(** One rename round: the random bytes, the rename, the checkpoint. *)
Definition round_script (md : ShredMetadata) (r : nat -> Z) (c : nat) : list Event :=
  [EvRand (draw r c 12); EvRename (TempPath md) (TempPath (renamed md r c))] ++
  save_script (renamed md r c).

Fixpoint rename_script (n : nat) (md : ShredMetadata) (r : nat -> Z) (c : nat)
    : list Event :=
  match n with
  | O => []
  | S n' => round_script md r c ++ rename_script n' (renamed md r c) r (c + 12)
  end.

Fixpoint rename_result (n : nat) (md : ShredMetadata) (r : nat -> Z) (c : nat)
    : ShredMetadata :=
  match n with
  | O => md
  | S n' => rename_result n' (renamed md r c) r (c + 12)
  end.

(** Truncation, removal of the checkpoint, removal of the file. *)
Definition finish_script (fd : nat) (md : ShredMetadata) : list Event :=
  [EvTruncate fd; EvRemove (OriginalPath md +:+ meta_suffix); EvRemove (TempPath md)].

(** The first rename and its checkpoint, for a record without working path. *)
Definition start_script (path : string) (md0 : ShredMetadata) : list Event :=
  if decide (TempPath md0 = "")
  then EvRename path (path +:+ ".tmp") :: save_script (started path md0)
  else [].

(** Everything from the overwrite loop on. *)
Definition body_script (guarded : bool) (passes : Z) (fd size : nat)
    (md : ShredMetadata) (r : nat -> Z) (c : nat) : list Event :=
  let n := Z.to_nat (passes - Pass md) in
  let md1 := overwrite_result n (Pass md) md in
  let c1 := (c + n * size)%nat in
  overwrite_script guarded n (Pass md) fd size md r c ++
  rename_script 10 md1 r c1 ++
  finish_script fd (rename_result 10 md1 r c1).

(** The events [D] and the result [r] of a run that loaded [md0]: it stopped
    in the prologue; or (src/shred.go) its check found the working file
    locked; or it opened the working file as [fd] and went on, as far as
    [D'], along the body script. *)
Definition run_shape (guarded : bool) (path : string) (passes : Z) (w : World)
    (md0 : ShredMetadata) (r : Res unit) (D : list Event) : Prop :=
  let md := started path md0 in
  let pre := (if guarded then [EvGuard path false] else []) ++ start_script path md0 in
  (D `prefix_of` pre /\ forall a, r <> Ok a) \/
  (guarded = false /\ D = pre ++ [EvGuard (TempPath md) true] /\ r = Fail BusyTemp) \/
  (exists fd D',
     D = pre ++ (if guarded then [] else [EvGuard (TempPath md) false]) ++ D' /\
     (D' <> [] -> names w !! working_name path md0 = Some fd) /\
     D' `prefix_of` body_script guarded passes fd (Z.to_nat (size_at w path)) md
                       (rng w) (cursor w) /\
     (r = Ok tt ->
      D' = body_script guarded passes fd (Z.to_nat (size_at w path)) md
             (rng w) (cursor w))).

(** ** The two variants of [Shred] after their prologue *)

(** src/shred.go, from the lock on. *)
Definition after_guard (passes : Z) (info : Z) (metadata : ShredMetadata)
    (tempFile : nat) : M unit :=
  let* _ := Flock tempFile in
  let* metadata :=
    ShredGo.overwrite_passes (Z.to_nat (passes - Pass metadata)) (Pass metadata)
      tempFile (Z.to_nat info) metadata in
  let* metadata := rename_rounds 10 metadata in
  finish tempFile metadata.

(** src/unnamed/part_000, from the overwrite loop on. *)
Definition after_open (passes : Z) (size : Z) (metadata : ShredMetadata)
    (tempFile : nat) : M unit :=
  let* metadata :=
    Part000.overwrite_passes (Z.to_nat (passes - Pass metadata)) (Pass metadata)
      tempFile (Z.to_nat size) metadata in
  let* metadata := rename_rounds 10 metadata in
  finish tempFile metadata.

(** ** Properties of event lists *)


Definition is_save (e : Event) : bool :=
  match e with EvSave _ => true | _ => false end.

Definition is_rename (e : Event) : bool :=
  match e with EvRename _ _ => true | _ => false end.

Definition is_remove (e : Event) : bool :=
  match e with EvRemove _ => true | _ => false end.



Definition no_remove (D : list Event) : Prop := Forall (fun e => is_remove e = false) D.




(** The characters of a string. *)
Definition chars (s : string) : list ascii := list_ascii_of_string s.

(** A rename of the obfuscation loop: the new name is the old one, a dot, and
    twelve characters picked from the alphabet. *)
Definition suffix_rename (e : Event) : Prop :=
  match e with
  | EvRename old new =>
      exists bs, length bs = 12%nat /\ new = old +:+ "." +:+ suffix_of bs /\
                 Forall (fun ch => ch ∈ chars charset) (chars (suffix_of bs))
  | _ => True
  end.





(** ** The reduction of a byte to a character *)

Definition byte_values : list Z := map Z.of_nat (seq 0 256).

(** How many of the 256 byte values [pick] sends to the character [c]. *)
Definition preimages (c : ascii) : nat :=
  length (filter (fun b => bool_decide (pick b = c)) byte_values).

(** What claim C7 states: every character has as many byte values as any
    other. *)
Definition uniform_suffix : Prop :=
  forall c1 c2 : ascii,
    c1 ∈ list_ascii_of_string charset -> c2 ∈ list_ascii_of_string charset ->
    preimages c1 = preimages c2.

(** ** Invariants of a run *)

(** The invariant of a run: the checkpoint exists, or no checkpoint write has
    succeeded yet in this run, or the run has removed the checkpoint. *)
Definition alive (cp : string) (n0 : nat) (w : World) : Prop :=
  (n0 <= length (log w))%nat /\
  (is_Some (names w !! cp) \/
   Forall (fun e => is_save e = false) (drop n0 (log w)) \/
   EvRemove cp ∈ drop n0 (log w)).

(** No directory entry has the original path. *)
Definition gone (path : string) (w : World) : Prop := names w !! path = None.

(** The working name is the original path and something after it. *)
Definition extends (path t : string) : Prop := exists x, x <> "" /\ t = path +:+ x.




(** ** The blocks [overwriteDevice] writes *)

(** The number of 4096-byte blocks that cover [size] bytes. *)
Definition blocks (size : Z) : nat := Z.to_nat ((size + 4095) / 4096).

(** The state of the device after [k] blocks: the first [4096 * k] bytes come
    from the entropy source, the rest is what the device held. *)
Definition blocks_written (device : nat) (old : bytes) (r : nat -> Z) (c : nat)
    (k : nat) (w : World) : Prop :=
  exists f, inodes w !! device = Some f /\
    content_bytes (content f) = draw r c (block_size * k) ++ drop (block_size * k) old.

(** ** Runs of the [Shred] that works on a temporary file *)

(** Everything after the temporary file was made, up to the deferred calls. *)
Definition temp_body (path : string) (passes : Z) (tempFile : nat) (name : string)
    (randomData : bytes) : M unit :=
  let* _ := ShredTemp.write_passes (Z.to_nat passes) tempFile randomData in
  let* _ := Sync tempFile in
  let* _ := os_Rename name path in
  os_Remove path.

(** How a run of the [Shred] that works on a temporary file can end. *)
Definition temp_shape (path : string) (passes : Z) (w : World) (r : Res unit)
    (w' : World) : Prop :=
  let t := fresh_ino w in
  let name := temp_name w in
  let bs := draw (rng w) (cursor w) (Z.to_nat (size_at w path)) in
  ((forall a, r <> Ok a) /\ names w' = names w /\ inodes w' = inodes w /\
   (log w' = log w \/ log w' = log w ++ [EvRand bs])) \/
  (is_Some (names w !! path) /\
   (forall j, j <> t -> inodes w' !! j = inodes w !! j) /\
   exists k D, (k <= Z.to_nat passes)%nat /\
     log w' = log w ++ [EvRand bs; EvCreate name] ++ replicate k (EvWrite t bs) ++ D /\
     (((forall a, r <> Ok a) /\ r <> Hang /\
       ((D = [] /\ names w' = <[name := t]> (names w)) \/
        (D = [EvRemove name] /\ names w' = names w))) \/
      ((forall a, r <> Ok a) /\ r <> Hang /\ k = Z.to_nat passes /\
       D = [EvRename name path] /\ names w' = <[path := t]> (names w)) \/
      ((r = Ok tt \/ r = Killed) /\ k = Z.to_nat passes /\
       D = [EvRename name path; EvRemove path] /\
       names w' = delete path (names w)))).

(** ** Letters and digits *)

(** The characters of the alphabet, by their codes: "a" to "z", "A" to "Z",
    "0" to "9". *)
Definition is_alnum (c : ascii) : bool :=
  let n := nat_of_ascii c in
  ((97 <=? n) && (n <=? 122) || (65 <=? n) && (n <=? 90) || (48 <=? n) && (n <=? 57))%nat.

(** ** The disk during and after a fresh job *)






(** ** The footprint of a run *)

(** The names a job works under: the working name [W] it starts from and
    the names made from it. *)
Definition inside (W : string) (t : string) : Prop := t = W \/ extends W t.

(** The rest of the disk is as in [N] and [I]: every name that is neither
    inside nor the checkpoint name has its entry, every inode that is
    [protected] has its content, and the checkpoint name does not lead to a
    protected inode. *)
Definition apart (W cp : string) (protected : nat -> Prop) (N : gmap string nat)
    (I : gmap nat Inode) (w : World) : Prop :=
  (forall q, ~ inside W q -> q <> cp -> names w !! q = N !! q) /\
  (forall j g, protected j -> I !! j = Some g ->
     inodes w !! j = Some g /\ names w !! cp <> Some j).

(** The inodes a job does not write: those that neither its working name
    nor its checkpoint name leads to when it starts. *)
Definition bystander (w : World) (W cp : string) (j : nat) : Prop :=
  names w !! W <> Some j /\ names w !! cp <> Some j.

(** ** Calls that return *)


(** ** More worlds and environments *)

(** A file the caller may not write, locked by another process. *)
Definition readonly1 (p : string) : World :=
  mkWorld {[ p := 0%nat ]} {[ 0%nat := mkInode (Raw [7]) false true ]} [] zero_rng 0 [].

(** Another process holds the lock on the 3-byte file "f". *)
Definition locked_disk : World :=
  mkWorld {[ "f" := 0%nat ]} {[ 0%nat := mkInode (Raw [1; 2; 3]) true true ]}
    [] zero_rng 0 [].

(** The environment lets five system calls through ([os.Stat], the failed
    open of the checkpoint, the rename, and the two calls of [saveMetadata])
    and kills the process at the sixth. *)
Definition killed_after_checkpoint : list Fate :=
  [Proceed; Proceed; Proceed; Proceed; Proceed; Kill].

(** The same point in part_000, which opens and locks the file before the
    rename. *)
Definition killed_after_checkpoint' : list Fate :=
  [Proceed; Proceed; Proceed; Proceed; Proceed; Proceed; Proceed; Kill].

(** The environment fails the 56th system call of a one-pass run on a fresh
    file: the removal of the renamed file, right after the removal of the
    checkpoint. *)
Definition fails_last_remove : list Fate := replicate 55 Proceed ++ [Eio].

(** The environment fails the 31st system call, the rename of the fifth
    round. *)
Definition fails_mid_rename : list Fate := replicate 30 Proceed ++ [Eio].

(** The 3-byte file "f" under that environment. *)
Definition rough_disk : World := disk1 "f" [1; 2; 3] fails_mid_rename.

(** The next invocation finds the disk the killed one left and is not
    disturbed itself. *)
Definition reinvoke (m : M unit) (w : World) : Res unit * World :=
  m (set_fates [] w).

(** The directory, as a list. *)
Definition entries (w : World) : list (string * nat) := map_to_list (names w).

(** A file is at "f" again while the checkpoint of an earlier job on "f"
    is still there; that job had got as far as the working name "g". *)
Definition stale_disk : World :=
  mkWorld {[ "f" := 0%nat; "f.shredmeta" := 1%nat; "g" := 2%nat ]}
    {[ 0%nat := mkInode (Raw [1; 2; 3]) true false;
       1%nat := mkInode (Json (mkMeta 1 "g" "f")) true false;
       2%nat := mkInode (Raw [9]) true false ]}
    [] zero_rng 0 [].

(** An environment that lets [os.Create] through and fails the encoding. *)
Definition fails_encode : list Fate := [Proceed; Eio].

(** * Reasoning about runs *)

Lemma bind_inv {A B} (m : M A) (k : A -> M B) w r w' :
  bind m k w = (r, w') ->
  (exists a w1, m w = (Ok a, w1) /\ k a w1 = (r, w')) \/
  ((forall b, r <> Ok b) /\
   exists r0 : Res A, m w = (r0, w') /\ (forall a, r0 <> Ok a) /\
     match r0, r with
     | Fail e, Fail e' => e = e'
     | Killed, Killed => True
     | Hang, Hang => True
     | _, _ => False
     end).
Proof.
  unfold bind. destruct (m w) as [[a|e| |] w1] eqn:E; intros H.
  - left. eauto.
  - right. inversion H; subst. split; [done|]. exists (Fail e). done.
  - right. inversion H; subst. split; [done|]. exists Killed. done.
  - right. inversion H; subst. split; [done|]. exists Hang. done.
Qed.

Lemma emits_bind {A B} (m : M A) (k : A -> M B) w s1 s2 P Q :
  emits m w s1 P ->
  (forall a w1, P a w1 -> rng w1 = rng w -> emits (k a) w1 s2 Q) ->
  emits (bind m k) w (s1 ++ s2) Q.
Proof.
  intros Hm Hk r w' H. apply bind_inv in H as [(a & w1 & H1 & H2)|(Hr & r0 & H1 & Hr0 & _)].
  - destruct (Hm _ _ H1) as (D1 & L1 & R1 & _ & O1).
    destruct (O1 a eq_refl) as [-> HP].
    destruct (Hk a w1 HP R1 _ _ H2) as (D2 & L2 & R2 & P2 & O2).
    exists (s1 ++ D2). split; [by rewrite L2, L1, app_assoc|].
    split; [congruence|]. split; [by apply prefix_app|].
    intros b ->. destruct (O2 b eq_refl) as [-> HQ]. done.
  - destruct (Hm _ _ H1) as (D1 & L1 & R1 & P1 & _).
    exists D1. split; [done|]. split; [done|]. split; [by apply prefix_app_r|].
    intros b ->. by destruct (Hr b).
Qed.

Lemma emits_ret {A} (a : A) w (Q : A -> World -> Prop) :
  Q a w -> emits (ret a) w [] Q.
Proof.
  intros HQ r w' H. unfold ret in H. simplify_eq. exists []. rewrite app_nil_r.
  split; [done|]. split; [done|]. split; [done|]. intros b Hb. by simplify_eq.
Qed.

Lemma emits_fail {A} e w s (Q : A -> World -> Prop) : emits (fail e) w s Q.
Proof.
  intros r w' H. unfold fail in H. simplify_eq. exists []. rewrite app_nil_r.
  split; [done|]. split; [done|]. split; [apply prefix_nil|]. intros b Hb. by simplify_eq.
Qed.

Lemma emits_weaken {A} (m : M A) w s (P Q : A -> World -> Prop) :
  emits m w s P -> (forall a w', P a w' -> Q a w') -> emits m w s Q.
Proof.
  intros Hm HPQ r w' H. destruct (Hm _ _ H) as (D & L & R & Pf & O).
  exists D. repeat split; try done; intros; destruct (O a); auto.
Qed.

Ltac run_prim H :=
  unfold syscall, next_fate in H;
  repeat (case_match; simplify_eq; simpl in * );
  simplify_eq.

Ltac emits_prim :=
  let r := fresh "r" in let w' := fresh "w'" in let H := fresh "H" in
  intros r w' H; run_prim H;
  first [ eexists [_]; simpl; repeat split; try done; intros; by simplify_eq
        | exists []; rewrite ?app_nil_r; simpl; repeat split;
          try done; try apply prefix_nil; intros; by simplify_eq ].

Lemma emits_Stat p w :
  emits (os_Stat p) w [] (fun _ w' => cursor w' = cursor w).
Proof. unfold os_Stat, file_at. emits_prim. Qed.

Lemma emits_Open p w :
  emits (os_Open p) w [] (fun _ w' => cursor w' = cursor w).
Proof. unfold os_Open, file_at. emits_prim. Qed.

Lemma emits_Decode fd w :
  emits (Decode fd) w [] (fun _ w' => cursor w' = cursor w).
Proof. unfold Decode. emits_prim. Qed.

Lemma emits_OpenFile p w :
  emits (os_OpenFile p) w [] (fun _ w' => cursor w' = cursor w).
Proof. unfold os_OpenFile, file_at. emits_prim. Qed.

Lemma emits_Flock fd w :
  emits (Flock fd) w [] (fun _ w' => cursor w' = cursor w).
Proof. unfold Flock. emits_prim. Qed.

Lemma emits_Flock_NB fd w :
  emits (Flock_NB fd) w [] (fun _ w' => cursor w' = cursor w).
Proof. unfold Flock_NB. emits_prim. Qed.

Lemma emits_Rename old new w :
  emits (os_Rename old new) w [EvRename old new] (fun _ w' => cursor w' = cursor w).
Proof. unfold os_Rename. emits_prim. Qed.

Lemma emits_Create p w :
  emits (os_Create p) w [EvCreate p] (fun _ w' => cursor w' = cursor w).
Proof. unfold os_Create. emits_prim. Qed.

Lemma emits_Encode fd m w :
  emits (Encode fd m) w [EvSave m] (fun _ w' => cursor w' = cursor w).
Proof. unfold Encode. emits_prim. Qed.

Lemma emits_rand n w :
  emits (rand_Read n) w [EvRand (draw (rng w) (cursor w) n)]
    (fun bs w' => bs = draw (rng w) (cursor w) n /\ cursor w' = (cursor w + n)%nat).
Proof. unfold rand_Read. emits_prim. Qed.

Lemma emits_WriteAt0 fd bs w :
  emits (WriteAt0 fd bs) w [EvWrite fd bs] (fun _ w' => cursor w' = cursor w).
Proof. unfold WriteAt0. emits_prim. Qed.

Lemma emits_Truncate0 fd w :
  emits (Truncate0 fd) w [EvTruncate fd] (fun _ w' => cursor w' = cursor w).
Proof. unfold Truncate0. emits_prim. Qed.

Lemma emits_Remove p w :
  emits (os_Remove p) w [EvRemove p] (fun _ w' => cursor w' = cursor w).
Proof. unfold os_Remove. emits_prim. Qed.

(** ** Steps follow their scripts *)

Lemma emits_saveMetadata md w :
  emits (saveMetadata md) w (save_script md) (fun _ w' => cursor w' = cursor w).
Proof.
  unfold saveMetadata, save_script.
  eapply (emits_bind _ _ _ [_] [_]); [apply emits_Create|].
  intros fd w1 Hc _. eapply emits_weaken; [apply emits_Encode|].
  simpl. intros. congruence.
Qed.

Lemma emits_randomString n w :
  emits (randomString n) w [EvRand (draw (rng w) (cursor w) n)]
    (fun s w' => s = suffix_of (draw (rng w) (cursor w) n) /\
                 cursor w' = (cursor w + n)%nat).
Proof.
  unfold randomString.
  eapply (emits_bind _ _ _ [_] []); [apply emits_rand|].
  intros bs w1 [-> Hc] _. apply emits_ret. done.
Qed.

Lemma emits_overwrite_passes n : forall i fd size md w,
  emits (ShredGo.overwrite_passes n i fd size md) w
    (overwrite_script false n i fd size md (rng w) (cursor w))
    (fun md' w' => md' = overwrite_result n i md /\
                   cursor w' = (cursor w + n * size)%nat).
Proof.
  induction n as [|n IH]; intros i fd size md w; simpl.
  - apply emits_ret. split; [done|lia].
  - unfold pass_script. simpl.
    eapply (emits_bind _ _ _ [_] (_ :: _)); [apply emits_rand|].
    intros bs w1 [-> Hc1] Hr1.
    eapply (emits_bind _ _ _ [_] (_ :: _ :: _)); [apply emits_WriteAt0|].
    intros ? w2 Hc2 Hr2. simpl in Hc2.
    eapply (emits_bind _ _ _ [_; _] _); [apply emits_saveMetadata|].
    intros ? w3 Hc3 Hr3. simpl in Hc3.
    assert (cursor w3 = (cursor w + size)%nat) as Hc by congruence.
    assert (rng w3 = rng w) as Hr by congruence.
    rewrite <- Hc, <- Hr.
    eapply emits_weaken; [apply IH|].
    simpl. intros md' w' [-> Hc']. split; [done|]. lia.
Qed.


Lemma emits_rename_rounds n : forall md w,
  emits (rename_rounds n md) w
    (rename_script n md (rng w) (cursor w))
    (fun md' w' => md' = rename_result n md (rng w) (cursor w) /\
                   cursor w' = (cursor w + n * 12)%nat).
Proof.
  induction n as [|n IH]; intros md w; simpl.
  - apply emits_ret. split; [done|lia].
  - unfold round_script. simpl.
    eapply (emits_bind _ _ _ [_] (_ :: _)); [apply emits_randomString|].
    intros s w1 [-> Hc1] Hr1.
    eapply (emits_bind _ _ _ [_] (_ :: _ :: _)); [apply emits_Rename|].
    intros ? w2 Hc2 Hr2. simpl in Hc2.
    eapply (emits_bind _ _ _ [_; _] _); [apply emits_saveMetadata|].
    intros ? w3 Hc3 Hr3. simpl in Hc3.
    assert (cursor w3 = (cursor w + 12)%nat) as Hc by congruence.
    assert (rng w3 = rng w) as Hr by congruence.
    rewrite <- Hc, <- Hr. fold (renamed md (rng w) (cursor w)).
    eapply emits_weaken; [apply IH|].
    simpl. intros md' w' [-> Hc']. rewrite Hr, Hc. split; [done|]. lia.
Qed.

Lemma emits_finish fd md w :
  emits (finish fd md) w (finish_script fd md) (fun _ _ => True).
Proof.
  unfold finish, finish_script.
  eapply (emits_bind _ _ _ [_] [_; _]); [apply emits_Truncate0|].
  intros ? w1 _ _.
  eapply (emits_bind _ _ _ [_] [_]); [apply emits_Remove|].
  intros ? w2 _ _. eapply emits_weaken; [apply emits_Remove|]. done.
Qed.

Lemma emits_rename_once path md0 w :
  emits (rename_once path md0) w (start_script path md0)
    (fun md w' => md = started path md0 /\ cursor w' = cursor w).
Proof.
  unfold rename_once, start_script, started. case_decide.
  - eapply (emits_bind _ _ _ [_] (_ :: _)); [apply emits_Rename|].
    intros ? w1 Hc1 _. simpl in Hc1.
    eapply (emits_bind _ _ _ [_; _] []); [apply emits_saveMetadata|].
    intros ? w2 Hc2 _. simpl in Hc2. apply emits_ret. split; [done|congruence].
  - apply emits_ret. done.
Qed.

(** ** Calls that leave the disk alone *)

Lemma quiet_refl w : quiet w w.
Proof. by repeat split. Qed.

Lemma quiet_trans w1 w2 w3 : quiet w1 w2 -> quiet w2 w3 -> quiet w1 w3.
Proof. unfold quiet. intros (?&?&?&?&?) (?&?&?&?&?). repeat split; congruence. Qed.

Lemma os_Stat_inv p w r w' :
  os_Stat p w = (r, w') ->
  quiet w w' /\ r <> Hang /\
  (forall S, r = Ok S -> is_Some (file_at w p) /\ S = size_at w p) /\
  (file_at w p = None -> r <> Killed -> r = Fail ENOENT \/ r = Fail EIO).
Proof.
  unfold os_Stat, size_at, file_at, quiet. intros H. run_prim H;
    repeat split; try done; intros; simplify_eq; eauto.
Qed.

Lemma os_OpenFile_inv p w r w' :
  os_OpenFile p w = (r, w') ->
  quiet w w' /\ (forall i, r = Ok i -> names w !! p = Some i).
Proof.
  unfold os_OpenFile, file_at, quiet. intros H. run_prim H;
    repeat split; try done; intros; simplify_eq; eauto.
Qed.

Lemma Flock_inv fd w r w' : Flock fd w = (r, w') -> quiet w w'.
Proof. unfold Flock, quiet. intros H. by run_prim H. Qed.

Lemma load_or_init_inv path w r w' :
  load_or_init path w = (r, w') ->
  quiet w w' /\ (forall e, r <> Fail e) /\ r <> Hang /\
  (forall md0, r = Ok md0 -> loaded w path md0).
Proof.
  unfold load_or_init, loadMetadata, catch, bind, ret, os_Open, Decode, quiet, loaded.
  intros H. unfold file_at in H. run_prim H; repeat split; try done; intros; simplify_eq; eauto.
  all: right; unfold file_at; simpl;
    repeat match goal with H : _ !! _ = Some _ |- _ => rewrite H; clear H end; eauto.
Qed.

Lemma isFileLocked_inv p w r w' :
  ShredGo.isFileLocked p w = (r, w') ->
  (r = Killed /\ quiet w w') \/
  (exists b, r = Ok b /\ names w' = names w /\ inodes w' = inodes w /\
     log w' = log w ++ [EvGuard p b] /\ rng w' = rng w /\ cursor w' = cursor w).
Proof.
  unfold ShredGo.isFileLocked, catch, bind, ret, os_OpenFile, Flock_NB, file_at, quiet.
  intros H. run_prim H; try (left; by repeat split); right; eexists; by repeat split.
Qed.

(** ** Paths *)

Lemma append_cons c s t : String c s +:+ t = String c (s +:+ t).
Proof. reflexivity. Qed.

Lemma chars_app a b : chars (a +:+ b) = chars a ++ chars b.
Proof.
  induction a as [|c a IH]; [done|]. rewrite append_cons.
  unfold chars in *. simpl. by f_equal.
Qed.

Lemma append_nil_r s : s +:+ "" = s.
Proof. induction s as [|c s IH]; [done|]. rewrite append_cons. by f_equal. Qed.

Lemma append_ne_self s t : t <> "" -> s +:+ t <> s.
Proof.
  intros Ht H. induction s as [|c s IH]; [done|].
  rewrite append_cons in H. injection H as H. auto.
Qed.

(** A name that ends in ".tmp" is not a checkpoint name. *)
Lemma tmp_ne_meta a b : a +:+ ".tmp" <> b +:+ meta_suffix.
Proof.
  intros H. apply (f_equal chars) in H. rewrite !chars_app in H.
  apply (f_equal last) in H.
  change (chars ".tmp") with (chars ".tm" ++ ["p"%char]) in H.
  change (chars meta_suffix) with (chars ".shredmet" ++ ["a"%char]) in H.
  rewrite !app_assoc, !last_snoc in H. discriminate H.
Qed.

Lemma pick_alnum b : pick b <> "."%char.
Proof.
  unfold pick.
  assert (Z.to_nat (b mod Z.of_nat (String.length charset)) < 62)%nat as Hlt.
  { change (Z.of_nat (String.length charset)) with 62.
    pose proof (Z.mod_pos_bound b 62 ltac:(lia)). lia. }
  revert Hlt. generalize (Z.to_nat (b mod Z.of_nat (String.length charset))). intros n Hn.
  do 62 (destruct n as [|n]; [vm_compute; discriminate|]). lia.
Qed.

(** Nor is a name that ends in a dot and twelve characters of the alphabet. *)
Lemma suffixed_ne_meta a b bs :
  length bs = 12%nat -> a +:+ "." +:+ suffix_of bs <> b +:+ meta_suffix.
Proof.
  intros Hlen H. apply (f_equal chars) in H. rewrite !chars_app in H.
  unfold suffix_of in H. unfold chars at 3 in H.
  rewrite list_ascii_of_string_of_list_ascii in H.
  assert (Hdot : "."%char ∈ map pick bs).
  { apply app_eq_inv in H as [(k & H1 & H2)|(k & H1 & H2)].
    - apply (f_equal length) in H2. rewrite length_app in H2. simpl in H2.
      rewrite length_map in H2. lia.
    - assert (length k = 3%nat) as Hk.
      { apply (f_equal length) in H2. simpl in H2.
        rewrite length_app, length_map in H2. simpl in H2. lia. }
      destruct k as [|k1 [|k2 [|k3 [|]]]]; simpl in Hk; try lia.
      simpl in H2. injection H2 as _ H2. rewrite H2.
      do 2 right. left. }
  apply list_elem_of_fmap in Hdot as (x & Hx & _). symmetry in Hx. by apply pick_alnum in Hx.
Qed.

(** The increment [i + 1] of the overwrite loop is taken while [i < passes],
    so it does not wrap. *)
Lemma increment_no_wrap (i passes : Z) :
  - 2 ^ 63 <= i -> i < passes -> passes < 2 ^ 63 -> wrap64 (i + 1) = i + 1.
Proof.
  intros Hlo Hlt Hhi. unfold wrap64.
  rewrite Z.mod_small; lia.
Qed.

Lemma length_draw r c n : length (draw r c n) = n.
Proof. unfold draw. by rewrite length_map, length_seq. Qed.

(** ** Where the first rename puts the file *)

Lemma rename_once_names path md0 w md w' :
  rename_once path md0 w = (Ok md, w') ->
  TempPath md0 = "" ->
  is_Some (names w !! path) /\
  names w' !! (path +:+ ".tmp") = names w !! path.
Proof.
  unfold rename_once. intros H Ht. rewrite decide_True in H by done.
  apply bind_inv in H as [([] & w1 & H1 & H)|(Hr & _)]; [|by destruct (Hr md)].
  apply bind_inv in H as [([] & w2 & H2 & H)|(Hr & _)]; [|by destruct (Hr md)].
  unfold ret in H. simplify_eq.
  assert (is_Some (names w !! path) /\ names w1 !! (path +:+ ".tmp") = names w !! path) as [Hs Hn].
  { unfold os_Rename in H1. run_prim H1; (split; [by eexists|by rewrite lookup_insert_eq]). }
  split; [done|]. rewrite <- Hn.
  unfold saveMetadata in H2.
  apply bind_inv in H2 as [(fd & w2 & H2 & H3)|(Hr & _)]; [|by destruct (Hr tt)].
  assert (names w' = names w2) as ->.
  { unfold Encode in H3. by run_prim H3. }
  simpl in H2. unfold os_Create in H2. run_prim H2; try done.
  all: rewrite lookup_insert_ne; [done|]; apply not_eq_sym, tmp_ne_meta.
Qed.

Lemma rename_once_working path md0 w md w' :
  rename_once path md0 w = (Ok md, w') ->
  names w' !! TempPath (started path md0) = names w !! working_name path md0.
Proof.
  intros H. unfold started, working_name. case_decide as Ht.
  - by apply rename_once_names in H as [_ H].
  - unfold rename_once in H. rewrite decide_False in H by done.
    unfold ret in H. by simplify_eq.
Qed.

(** ** The trace of [Shred] in src/shred.go *)

Lemma emits_after_guard passes info md fd w :
  emits (after_guard passes info md fd) w
    (body_script false passes fd (Z.to_nat info) md (rng w) (cursor w))
    (fun _ _ => True).
Proof.
  unfold after_guard, body_script.
  eapply (emits_bind _ _ _ [] _); [apply emits_Flock|].
  intros ? w1 Hc1 Hr1. simpl in Hc1. rewrite <- Hc1, <- Hr1.
  eapply emits_bind; [apply emits_overwrite_passes|].
  intros md1 w2 [-> Hc2] Hr2. rewrite <- Hc2, <- Hr2.
  eapply emits_bind; [apply emits_rename_rounds|].
  intros md2 w3 [-> Hc3] Hr3. apply emits_finish.
Qed.

Lemma ShredGo_trace path passes w r w' :
  ShredGo.Shred path passes w = (r, w') ->
  exists md0 D, loaded w path md0 /\ log w' = log w ++ D /\
    run_shape false path passes w md0 r D.
Proof.
  intros H. unfold ShredGo.Shred in H.
  assert (Hfresh : loaded w path (mkMeta 0 "" path)) by by left.
  apply bind_inv in H as [(info & w1 & H1 & H)|(Hr & r0 & H1 & _)].
  2:{ apply os_Stat_inv in H1 as ((_&_&L&_&_)&_).
      exists (mkMeta 0 "" path), []. rewrite app_nil_r. repeat split; try done.
      left. split; [apply prefix_nil|done]. }
  apply os_Stat_inv in H1 as ((N1&I1&L1&R1&C1)&_&HS&_).
  destruct (HS _ eq_refl) as [Hex ->].
  destruct (size_limit <? size_at w path) eqn:Hlim.
  { unfold fail in H. simplify_eq.
    exists (mkMeta 0 "" path), []. rewrite app_nil_r. repeat split; try done.
    left. split; [apply prefix_nil|done]. }
  apply bind_inv in H as [(md0 & w2 & H2 & H)|(Hr & r0 & H2 & _)].
  2:{ apply load_or_init_inv in H2 as ((_&_&L&_&_)&_).
      exists (mkMeta 0 "" path), []. rewrite app_nil_r. repeat split; try congruence.
      left. split; [apply prefix_nil|done]. }
  apply load_or_init_inv in H2 as ((N2&I2&L2&R2&C2)&_&_&HL).
  specialize (HL _ eq_refl).
  assert (Hld : loaded w path md0).
  { destruct HL as [->|(i&f&Hf&Hc)]; [by left|right].
    unfold file_at in *. rewrite N1, I1 in Hf. eauto. }
  exists md0.
  apply bind_inv in H as [(md & w3 & H3 & H)|(Hr & r0 & H3 & _)].
  2:{ destruct (emits_rename_once _ _ _ _ _ H3) as (D & LD & _ & PD & _).
      exists D. repeat split; try done; [congruence|]. left. done. }
  destruct (emits_rename_once _ _ _ _ _ H3) as (D0 & LD & R3 & _ & OD).
  destruct (OD _ eq_refl) as (-> & -> & C3).
  apply bind_inv in H as [(busy & w4 & H4 & H)|(Hr & r0 & H4 & Hr0 & _)].
  2:{ apply isFileLocked_inv in H4 as [[-> (_&_&L4&_&_)]|(b&->&_)]; [|by destruct (Hr0 b)].
      exists (start_script path md0). split; [done|]. split; [congruence|].
      left. done. }
  apply isFileLocked_inv in H4 as [[? _]|(b&Hb&N4&I4&L4&R4&C4)]; [done|].
  simplify_eq. destruct b.
  { unfold fail in H. simplify_eq.
    exists (start_script path md0 ++ [EvGuard (TempPath (started path md0)) true]).
    split; [done|]. split; [rewrite L4, LD, L2, L1; by rewrite app_assoc|].
    right; left. done. }
  exists (start_script path md0 ++ [EvGuard (TempPath (started path md0)) false]
          ++ drop (length (log w4)) (log w')).
  assert (Hw4 : log w4 = log w ++ start_script path md0 ++
                         [EvGuard (TempPath (started path md0)) false]).
  { rewrite L4, LD, L2, L1. by rewrite <- app_assoc. }
  assert (Hcr : cursor w4 = cursor w /\ rng w4 = rng w) by (split; congruence).
  destruct Hcr as [Hc4 Hr4].
  apply bind_inv in H as [(fd & w5 & H5 & H)|(Hr & r0 & H5 & _)].
  2:{ apply os_OpenFile_inv in H5 as ((_&_&L5&_&_)&_).
      rewrite L5, drop_all. split; [done|]. split; [by rewrite Hw4|].
      right; right. exists 0%nat, []. split; [done|]. split; [done|].
      split; [apply prefix_nil|]. intros ->. by destruct (Hr tt). }
  apply os_OpenFile_inv in H5 as ((N5&I5&L5&R5&C5)&Hfd).
  specialize (Hfd _ eq_refl). rewrite N4 in Hfd.
  rewrite (rename_once_working _ _ _ _ _ H3), N2, N1 in Hfd.
  destruct (emits_after_guard _ _ _ _ _ _ _ H) as (D & LD' & _ & PD & OD').
  rewrite LD', L5, drop_app_length.
  split; [done|]. split; [rewrite Hw4; by rewrite <- !app_assoc|].
  right; right. exists fd, D. split; [done|]. split; [done|].
  rewrite R5, C5, Hr4, Hc4 in PD, OD'.
  split; [done|]. intros ->. by destruct (OD' tt eq_refl).
Qed.

(** ** The trace of [Shred] in src/unnamed/part_000 *)



(** ** Errors a step cannot produce *)

Lemma never_bind {A B} e (m : M A) (k : A -> M B) :
  never e m -> (forall a, never e (k a)) -> never e (bind m k).
Proof.
  intros Hm Hk w r w' H. apply bind_inv in H as [(a&w1&H1&H2)|(_&r0&H1&_&Hm')].
  - by eapply Hk.
  - intros ->. destruct r0; try done. subst. by eapply Hm.
Qed.

Lemma never_ret {A} e (a : A) : never e (ret a).
Proof. intros w r w' H. unfold ret in H. by simplify_eq. Qed.

Ltac never_prim :=
  let H := fresh "H" in
  intros ? ? ? H; unfold catch, bind, ret in H; run_prim H; done.

Lemma never_size_saveMetadata md : never SizeExceeded (saveMetadata md).
Proof. unfold saveMetadata, os_Create, Encode. never_prim. Qed.

Lemma never_size_load_or_init path : never SizeExceeded (load_or_init path).
Proof. intros w r w' H. apply load_or_init_inv in H as (_&H&_). apply H. Qed.

Lemma never_size_rename_once path md : never SizeExceeded (rename_once path md).
Proof.
  unfold rename_once. case_decide; [|apply never_ret].
  apply never_bind; [unfold os_Rename; never_prim|]. intros _.
  apply never_bind; [apply never_size_saveMetadata|]. intros _. apply never_ret.
Qed.

Lemma never_size_rename_rounds n : forall md, never SizeExceeded (rename_rounds n md).
Proof.
  induction n as [|n IH]; intros md; simpl; [apply never_ret|].
  apply never_bind; [unfold randomString, rand_Read; never_prim|]. intros s.
  apply never_bind; [unfold os_Rename; never_prim|]. intros _.
  apply never_bind; [apply never_size_saveMetadata|]. intros _. apply IH.
Qed.

Lemma never_size_finish fd md : never SizeExceeded (finish fd md).
Proof. unfold finish, Truncate0, os_Remove. never_prim. Qed.

Lemma never_size_overwrite n : forall i fd size md,
  never SizeExceeded (ShredGo.overwrite_passes n i fd size md).
Proof.
  induction n as [|n IH]; intros i fd size md; simpl; [apply never_ret|].
  apply never_bind; [unfold rand_Read; never_prim|]. intros bs.
  apply never_bind; [unfold WriteAt0; never_prim|]. intros _.
  apply never_bind; [apply never_size_saveMetadata|]. intros _. apply IH.
Qed.

Lemma never_size_overwrite_guarded n : forall i fd size md,
  never SizeExceeded (Part000.overwrite_passes n i fd size md).
Proof.
  induction n as [|n IH]; intros i fd size md; simpl; [apply never_ret|].
  apply never_bind; [unfold Part000.isFileLocked; never_prim|]. intros [|].
  { intros w r w' H. unfold fail in H. by simplify_eq. }
  apply never_bind; [unfold rand_Read; never_prim|]. intros bs.
  apply never_bind; [unfold WriteAt0; never_prim|]. intros _.
  apply never_bind; [apply never_size_saveMetadata|]. intros _. apply IH.
Qed.

(** After a size that passes the check, [Shred] of src/shred.go does not
    report [SizeExceeded]. *)
Lemma never_size_ShredGo_rest path passes info :
  never SizeExceeded
    (let* metadata := load_or_init path in
     let* metadata := rename_once path metadata in
     let* busy := ShredGo.isFileLocked (TempPath metadata) in
     if busy then fail BusyTemp else
     let* tempFile := os_OpenFile (TempPath metadata) in
     after_guard passes info metadata tempFile).
Proof.
  apply never_bind; [apply never_size_load_or_init|]. intros md0.
  apply never_bind; [apply never_size_rename_once|]. intros md.
  apply never_bind.
  { intros w r w' H. apply isFileLocked_inv in H as [[-> _]|(b&->&_)]; done. }
  intros [|]. { intros w r w' H. unfold fail in H. by simplify_eq. }
  apply never_bind; [unfold os_OpenFile, file_at; never_prim|]. intros fd.
  unfold after_guard.
  apply never_bind; [unfold Flock; never_prim|]. intros _.
  apply never_bind; [apply never_size_overwrite|]. intros md1.
  apply never_bind; [apply never_size_rename_rounds|]. intros md2.
  apply never_size_finish.
Qed.

Lemma never_size_Part000_rest path passes info :
  never SizeExceeded
    (let* busy := Part000.isFileLocked path in
     if busy then fail BusyFile else
     let* metadata := load_or_init path in
     let* file := os_OpenFile path in
     let* _ := Flock file in
     let* metadata := rename_once path metadata in
     let* tempFile := os_OpenFile (TempPath metadata) in
     after_open passes info metadata tempFile).
Proof.
  apply never_bind; [unfold Part000.isFileLocked; never_prim|]. intros [|].
  { intros w r w' H. unfold fail in H. by simplify_eq. }
  apply never_bind; [apply never_size_load_or_init|]. intros md0.
  apply never_bind; [unfold os_OpenFile, file_at; never_prim|]. intros file.
  apply never_bind; [unfold Flock; never_prim|]. intros _.
  apply never_bind; [apply never_size_rename_once|]. intros md.
  apply never_bind; [unfold os_OpenFile, file_at; never_prim|]. intros fd.
  unfold after_open.
  apply never_bind; [apply never_size_overwrite_guarded|]. intros md1.
  apply never_bind; [apply never_size_rename_rounds|]. intros md2.
  apply never_size_finish.
Qed.

(** ** Reading scripts *)

Lemma prefix_app_cases {A} (D S1 S2 : list A) :
  D `prefix_of` S1 ++ S2 ->
  D `prefix_of` S1 \/ exists D2, D = S1 ++ D2 /\ D2 `prefix_of` S2.
Proof.
  intros [k Hk]. apply app_eq_inv in Hk as [(k' & H1 & H2)|(k' & H1 & H2)].
  - left. by exists k'.
  - right. exists k'. split; [done|]. by exists k.
Qed.





Lemma TempPath_overwrite_result n : forall i md,
  TempPath (overwrite_result n i md) = TempPath md /\
  OriginalPath (overwrite_result n i md) = OriginalPath md /\
  Pass (overwrite_result n i md)
  = match n with O => Pass md | S _ => i + Z.of_nat n end.
Proof.
  induction n as [|n IH]; intros i md; simpl; [done|].
  destruct (IH (i + 1) (set_Pass (i + 1) md)) as (-> & -> & ->).
  repeat split. destruct n; simpl; lia.
Qed.

Lemma OriginalPath_rename_result n : forall md r c,
  OriginalPath (rename_result n md r c) = OriginalPath md /\
  Pass (rename_result n md r c) = Pass md.
Proof.
  induction n as [|n IH]; intros md r c; simpl; [done|].
  destruct (IH (renamed md r c) r (c + 12)%nat) as (-> & ->). done.
Qed.








(** [Shred] on a path that names nothing. *)
Lemma stat_missing (path : string) (passes : Z) (w : World) :
  file_at w path = None ->
  head (fates w) = None \/ head (fates w) = Some Proceed ->
  ShredGo.Shred path passes w = (Fail ENOENT, set_fates (tail (fates w)) w).
Proof.
  intros Hf Hh.
  unfold ShredGo.Shred, bind at 1. unfold os_Stat, syscall, next_fate.
  destruct w as [ns im fs r c l]. simpl in *.
  destruct fs as [|[| |] fs]; simpl in *; destruct Hh; simplify_eq;
    unfold set_fates, file_at in *; simpl in *; by rewrite Hf.
Qed.

(** ** Sizes, names and suffixes *)


Lemma Pass_started path md0 : Pass (started path md0) = Pass md0.
Proof. unfold started. by case_decide. Qed.

Lemma pick_in_charset b : pick b ∈ chars charset.
Proof.
  unfold pick, chars. apply list_elem_of_In, nth_In.
  assert (length (list_ascii_of_string charset) = 62%nat) as -> by reflexivity.
  assert (Z.of_nat (String.length charset) = 62) as -> by reflexivity.
  pose proof (Z.mod_pos_bound b 62 ltac:(lia)). lia.
Qed.

Lemma suffix_of_alnum bs : Forall (fun ch => ch ∈ chars charset) (chars (suffix_of bs)).
Proof.
  unfold suffix_of, chars at 2. rewrite list_ascii_of_string_of_list_ascii.
  apply Forall_forall. intros ch Hin.
  apply list_elem_of_fmap in Hin as (b & -> & _). apply pick_in_charset.
Qed.

Lemma rename_script_rounds n : forall md r c,
  Forall suffix_rename (rename_script n md r c) /\
  length (filter (fun e => is_rename e = true)
            (rename_script n md r c)) = n.
Proof.
  induction n as [|n IH]; intros md r c; simpl; [by split|].
  destruct (IH (renamed md r c) r (c + 12)%nat) as [IH1 IH2]. split.
  - constructor; [done|]. constructor.
    { exists (draw r c 12). split; [apply length_draw|]. split; [done|]. apply suffix_of_alnum. }
    by repeat (constructor; [done|]).
  - rewrite !filter_cons_False by done. by rewrite IH2.
Qed.

(** ** The pass counter *)






(** ** Contention checks in a trace *)













(** ** Composing invariants *)

Lemma keeps_bind Inv {A B} (m : M A) (k : A -> M B) phi psi :
  keeps Inv m phi -> (forall a, phi a -> keeps Inv (k a) psi) ->
  keeps Inv (bind m k) psi.
Proof.
  intros Hm Hk w r w' Ha H.
  apply bind_inv in H as [(a & w1 & H1 & H2)|(Hr & r0 & H1 & _)].
  - destruct (Hm _ _ _ Ha H1) as [Ha1 Hphi].
    by apply (Hk a (Hphi a eq_refl) w1).
  - destruct (Hm _ _ _ Ha H1) as [Ha1 _]. split; [done|].
    intros b ->. by destruct (Hr b).
Qed.

Lemma keeps_ret Inv {A} (a : A) (phi : A -> Prop) : phi a -> keeps Inv (ret a) phi.
Proof.
  intros Hp w r w' Ha H. unfold ret in H. simplify_eq. split; [done|].
  intros b Hb. by simplify_eq.
Qed.

Lemma keeps_fail Inv {A} e (phi : A -> Prop) : keeps Inv (fail e) phi.
Proof.
  intros w r w' Ha H. unfold fail in H. simplify_eq. split; [done|].
  intros b Hb. by simplify_eq.
Qed.

Lemma keeps_weaken Inv {A} (m : M A) (phi psi : A -> Prop) :
  keeps Inv m phi -> (forall a, phi a -> psi a) -> keeps Inv m psi.
Proof. intros Hm Hi w r w' Ha H. destruct (Hm _ _ _ Ha H). split; auto. Qed.

(** ** The checkpoint on disk *)

Section Checkpoint.

Variable cp : string.     (* the name of the checkpoint *)
Variable n0 : nat.        (* the length of the log when the run starts *)

Lemma alive_quiet w w' :
  alive cp n0 w -> names w' = names w -> log w' = log w -> alive cp n0 w'.
Proof. unfold alive. intros H -> ->. done. Qed.

Lemma alive_emit w w' e :
  alive cp n0 w -> log w' = log w ++ [e] ->
  (is_save e = false /\ (is_Some (names w !! cp) -> is_Some (names w' !! cp))) \/
  is_Some (names w' !! cp) \/ e = EvRemove cp ->
  alive cp n0 w'.
Proof.
  intros [Hn Ha] HL He. split; [rewrite HL, length_app; lia|].
  rewrite HL, drop_app_le by done.
  destruct He as [[He Hs]|[He| ->]]; [|by left|].
  - destruct Ha as [Ha|[Ha|Ha]]; [left; auto| |].
    + right; left. apply Forall_app. split; [done|by repeat constructor].
    + right; right. apply elem_of_app. by left.
  - right; right. apply elem_of_app. right. left.
Qed.

Lemma alive_set_fates w fs : alive cp n0 w -> alive cp n0 (set_fates fs w).
Proof. intros H. by eapply alive_quiet. Qed.

Ltac keeps_quiet :=
  let Ha := fresh "Ha" in let H := fresh "H" in
  intros ? ? ? Ha H; unfold file_at in H; run_prim H;
  (split; [first [done | by apply alive_set_fates]|intros; by simplify_eq]).

Lemma keeps_OpenFile p : keeps (alive cp n0) (os_OpenFile p) (fun _ => True).
Proof. unfold os_OpenFile. keeps_quiet. Qed.

Lemma keeps_Flock fd : keeps (alive cp n0) (Flock fd) (fun _ => True).
Proof. unfold Flock. keeps_quiet. Qed.

Lemma keeps_isFileLocked p : keeps (alive cp n0) (ShredGo.isFileLocked p) (fun _ => True).
Proof.
  intros w r w' Ha H. split; [|done].
  apply isFileLocked_inv in H as [(_ & N & _ & L & _)|(b & _ & N & _ & L & _)].
  - by eapply alive_quiet.
  - eapply alive_emit; [done|done|left; split; [done|by rewrite N]].
Qed.

Lemma keeps_rand n : keeps (alive cp n0) (rand_Read n) (fun bs => length bs = n).
Proof.
  intros w r w' Ha H. unfold rand_Read in H. run_prim H;
    (split; [|intros; simplify_eq; try done; apply length_draw]);
    try (by apply alive_set_fates); try done.
  all: eapply alive_emit; [apply Ha|done|by left].
Qed.

Lemma keeps_WriteAt0 fd bs : keeps (alive cp n0) (WriteAt0 fd bs) (fun _ => True).
Proof.
  intros w r w' Ha H. split; [|done]. unfold WriteAt0 in H. run_prim H;
    try (by apply alive_set_fates); try done.
  all: eapply alive_emit; [apply Ha|done|by left].
Qed.

Lemma keeps_Truncate0 fd : keeps (alive cp n0) (Truncate0 fd) (fun _ => True).
Proof.
  intros w r w' Ha H. split; [|done]. unfold Truncate0 in H. run_prim H;
    try (by apply alive_set_fates); try done.
  all: eapply alive_emit; [apply Ha|done|by left].
Qed.

Lemma keeps_Rename old new : old <> cp -> keeps (alive cp n0) (os_Rename old new) (fun _ => True).
Proof.
  intros Hne w r w' Ha H. split; [|done]. unfold os_Rename in H. run_prim H;
    try (by apply alive_set_fates); try done.
  all: eapply alive_emit; [apply Ha|done|left; split; [done|]]; simpl.
  all: intros Hs; destruct (decide (new = cp)) as [Heq|];
    [subst new; rewrite lookup_insert_eq; by eexists
    |by rewrite lookup_insert_ne, lookup_delete_ne].
Qed.

Lemma keeps_Remove p : keeps (alive cp n0) (os_Remove p) (fun _ => True).
Proof.
  intros w r w' Ha H. split; [|done]. unfold os_Remove in H. run_prim H;
    try (by apply alive_set_fates); try done.
  all: destruct (decide (p = cp)) as [Heq|Hne];
    [subst p; eapply alive_emit; [apply Ha|done|by right; right]
    |eapply alive_emit; [apply Ha|done|left; split; [done|]]; simpl;
     by rewrite lookup_delete_ne].
Qed.

Lemma keeps_saveMetadata md :
  OriginalPath md +:+ meta_suffix = cp -> keeps (alive cp n0) (saveMetadata md) (fun _ => True).
Proof.
  intros Hcp w r w' Ha H. split; [|done]. unfold saveMetadata in H. rewrite Hcp in H.
  clear Hcp.
  apply bind_inv in H as [(fd & w1 & H1 & H2)|(Hr & r0 & H1 & Hr0 & _)].
  - assert (alive cp n0 w1 /\ is_Some (names w1 !! cp)) as [Ha1 Hs1].
    { unfold os_Create in H1. run_prim H1; simpl.
      all: split; [eapply alive_emit; [apply Ha|done|right; left; simpl]|];
        rewrite ?lookup_insert_eq; by eexists. }
    unfold Encode in H2. run_prim H2; try (by apply alive_set_fates); try done.
    all: eapply alive_emit; [apply Ha1|done|by right; left].
  - unfold os_Create in H1. run_prim H1; try (by apply alive_set_fates); try done.
    all: exfalso; by eapply Hr0.
Qed.

Lemma keeps_randomString :
  keeps (alive cp n0) (randomString 12) (fun s => exists bs, length bs = 12%nat /\ s = suffix_of bs).
Proof.
  unfold randomString. eapply keeps_bind; [apply keeps_rand|].
  intros bs Hbs. apply keeps_ret. exists bs. by split.
Qed.

Lemma keeps_overwrite_passes n : forall i fd size md,
  OriginalPath md +:+ meta_suffix = cp ->
  keeps (alive cp n0) (ShredGo.overwrite_passes n i fd size md)
    (fun md' => TempPath md' = TempPath md /\ OriginalPath md' = OriginalPath md).
Proof.
  induction n as [|n IH]; intros i fd size md Hcp; simpl; [by apply keeps_ret|].
  eapply keeps_bind; [apply keeps_rand|]. intros bs _.
  eapply keeps_bind; [apply keeps_WriteAt0|]. intros _ _.
  eapply keeps_bind; [by apply keeps_saveMetadata|]. intros _ _.
  eapply keeps_weaken; [by apply IH|]. done.
Qed.

Lemma keeps_rename_rounds n : forall md,
  OriginalPath md +:+ meta_suffix = cp -> TempPath md <> cp ->
  keeps (alive cp n0) (rename_rounds n md) (fun _ => True).
Proof.
  induction n as [|n IH]; intros md Hcp Ht; simpl; [by apply keeps_ret|].
  eapply keeps_bind; [apply keeps_randomString|]. intros s (bs & Hbs & ->).
  eapply keeps_bind; [by apply keeps_Rename|]. intros _ _.
  eapply keeps_bind; [by apply keeps_saveMetadata|]. intros _ _.
  apply IH; [done|]. simpl. rewrite <- Hcp. by apply suffixed_ne_meta.
Qed.

Lemma keeps_finish fd md : keeps (alive cp n0) (finish fd md) (fun _ => True).
Proof.
  unfold finish. eapply keeps_bind; [apply keeps_Truncate0|]. intros _ _.
  eapply keeps_bind; [apply keeps_Remove|]. intros _ _. apply keeps_Remove.
Qed.

Lemma keeps_rename_once path md0 :
  cp = path +:+ meta_suffix -> OriginalPath md0 = path ->
  keeps (alive cp n0) (rename_once path md0) (fun md => md = started path md0).
Proof.
  intros Hcp Ho. unfold rename_once, started. case_decide; [|by apply keeps_ret].
  eapply keeps_bind; [apply keeps_Rename|].
  { rewrite Hcp. apply not_eq_sym, append_ne_self. done. }
  intros _ _. eapply keeps_bind; [apply keeps_saveMetadata; simpl; congruence|].
  intros _ _. by apply keeps_ret.
Qed.

(** [Shred] of src/shred.go from the first rename on. *)
Lemma keeps_ShredGo_rest path passes info md0 :
  cp = path +:+ meta_suffix -> OriginalPath md0 = path ->
  (TempPath md0 <> "" -> TempPath md0 <> cp) ->
  keeps (alive cp n0)
    (let* metadata := rename_once path md0 in
     let* busy := ShredGo.isFileLocked (TempPath metadata) in
     if busy then fail BusyTemp else
     let* tempFile := os_OpenFile (TempPath metadata) in
     after_guard passes info metadata tempFile)
    (fun _ => True).
Proof.
  intros Hcp Ho Ht.
  assert (Ho' : OriginalPath (started path md0) +:+ meta_suffix = cp).
  { unfold started. case_decide; simpl; congruence. }
  assert (Ht' : TempPath (started path md0) <> cp).
  { unfold started. case_decide; simpl; [|auto]. rewrite Hcp. apply tmp_ne_meta. }
  eapply keeps_bind; [by apply keeps_rename_once|]. intros md ->.
  eapply keeps_bind; [apply keeps_isFileLocked|]. intros [|] _; [apply keeps_fail|].
  eapply keeps_bind; [apply keeps_OpenFile|]. intros fd _.
  unfold after_guard.
  eapply keeps_bind; [apply keeps_Flock|]. intros _ _.
  eapply keeps_bind; [by apply keeps_overwrite_passes|]. intros md1 [Ht1 Ho1].
  eapply keeps_bind; [apply keeps_rename_rounds; congruence|]. intros md2 _.
  apply keeps_finish.
Qed.

End Checkpoint.

Lemma loaded_wf w path md0 :
  wf_checkpoint w path -> loaded w path md0 ->
  OriginalPath md0 = path /\
  (TempPath md0 <> "" -> TempPath md0 <> path +:+ meta_suffix).
Proof.
  intros Hwf [->|(i & f & Hf & Hc)]; [done|].
  destruct (Hwf _ _ _ Hf Hc). auto.
Qed.

Lemma ShredGo_alive path passes w r w' :
  wf_checkpoint w path ->
  ShredGo.Shred path passes w = (r, w') ->
  alive (path +:+ meta_suffix) (length (log w)) w'.
Proof.
  intros Hwf H. unfold ShredGo.Shred in H.
  assert (Ha : alive (path +:+ meta_suffix) (length (log w)) w).
  { split; [done|]. right; left. rewrite drop_all. constructor. }
  apply bind_inv in H as [(info & w1 & H1 & H)|(Hr & r0 & H1 & _)].
  2:{ apply os_Stat_inv in H1 as ((N&_&L&_)&_). eapply alive_quiet; [apply Ha|done|done]. }
  apply os_Stat_inv in H1 as ((N1&I1&L1&R1&C1)&_).
  destruct (size_limit <? info).
  { unfold fail in H. simplify_eq. eapply alive_quiet; [apply Ha|done|done]. }
  apply bind_inv in H as [(md0 & w2 & H2 & H)|(Hr & r0 & H2 & _)].
  2:{ apply load_or_init_inv in H2 as ((N&_&L&_)&_).
      eapply alive_quiet; [apply Ha|congruence|congruence]. }
  apply load_or_init_inv in H2 as ((N2&I2&L2&R2&C2)&_&_&HL).
  specialize (HL _ eq_refl).
  assert (Hld : loaded w path md0).
  { destruct HL as [->|(i&f&Hf&Hc)]; [by left|right].
    unfold file_at in *. rewrite N1, I1 in Hf. eauto. }
  destruct (loaded_wf _ _ _ Hwf Hld) as [Ho Ht].
  assert (Ha2 : alive (path +:+ meta_suffix) (length (log w)) w2).
  { eapply alive_quiet; [apply Ha|congruence|congruence]. }
  by destruct (keeps_ShredGo_rest (path +:+ meta_suffix) (length (log w))
    path passes info md0 eq_refl Ho Ht w2 r w' Ha2 H).
Qed.

Lemma no_remove_elem D p : no_remove D -> EvRemove p ∉ D.
Proof. intros H Hin. eapply Forall_forall in H; [|done]. done. Qed.

Lemma no_remove_prefix D S : D `prefix_of` S -> no_remove S -> no_remove D.
Proof. intros [k ->] H. by apply Forall_app in H as [H _]. Qed.

Lemma no_remove_start path md0 : no_remove (start_script path md0).
Proof. unfold start_script, no_remove. case_decide; repeat constructor. Qed.

Lemma no_remove_overwrite g n : forall i fd size md r c,
  no_remove (overwrite_script g n i fd size md r c).
Proof.
  induction n as [|n IH]; intros i fd size md r c; simpl; [constructor|].
  apply Forall_app. split; [|apply IH].
  unfold pass_script. destruct g; by repeat constructor.
Qed.

Lemma no_remove_rename n : forall md r c, no_remove (rename_script n md r c).
Proof.
  induction n as [|n IH]; intros md r c; simpl; [constructor|].
  repeat (constructor; [done|]). apply IH.
Qed.

(** ** The original path after the first rename *)

Lemma bind_assoc {A B C} (m : M A) (f : A -> M B) (k : B -> M C) w :
  bind (bind m f) k w = bind m (fun a => bind (f a) k) w.
Proof. unfold bind. by destruct (m w) as [[a|e| |] w1]. Qed.

Lemma append_assoc a b c : (a +:+ b) +:+ c = a +:+ (b +:+ c).
Proof. induction a as [|x a IH]; [done|]. rewrite !append_cons. by f_equal. Qed.

Section Gone.

Variable path : string.

Lemma extends_ne t : extends path t -> t <> path.
Proof. intros (x & Hx & ->). by apply append_ne_self. Qed.

Lemma extends_append t s : extends path t -> extends path (t +:+ s).
Proof.
  intros (x & Hx & ->). exists (x +:+ s). split; [|apply append_assoc].
  destruct x; [done|]. by rewrite append_cons.
Qed.

Ltac gone_prim H :=
  unfold file_at in H; run_prim H; unfold gone in *; simpl;
  (split; [try done|intros; by simplify_eq]).

Lemma gone_OpenFile p : keeps (gone path) (os_OpenFile p) (fun _ => True).
Proof. intros w r w' Ha H. unfold os_OpenFile in H. gone_prim H. Qed.

Lemma gone_Flock fd : keeps (gone path) (Flock fd) (fun _ => True).
Proof. intros w r w' Ha H. unfold Flock in H. gone_prim H. Qed.

Lemma gone_isFileLocked p : keeps (gone path) (ShredGo.isFileLocked p) (fun _ => True).
Proof.
  intros w r w' Ha H. split; [|done]. unfold gone in *.
  apply isFileLocked_inv in H as [(_ & N & _)|(b & _ & N & _)]; by rewrite N.
Qed.

Lemma gone_rand n : keeps (gone path) (rand_Read n) (fun _ => True).
Proof. intros w r w' Ha H. unfold rand_Read in H. gone_prim H. Qed.

Lemma gone_WriteAt0 fd bs : keeps (gone path) (WriteAt0 fd bs) (fun _ => True).
Proof. intros w r w' Ha H. unfold WriteAt0 in H. gone_prim H. Qed.

Lemma gone_Truncate0 fd : keeps (gone path) (Truncate0 fd) (fun _ => True).
Proof. intros w r w' Ha H. unfold Truncate0 in H. gone_prim H. Qed.

Lemma gone_Encode fd md : keeps (gone path) (Encode fd md) (fun _ => True).
Proof. intros w r w' Ha H. unfold Encode in H. gone_prim H. Qed.

Lemma gone_Create p : p <> path -> keeps (gone path) (os_Create p) (fun _ => True).
Proof.
  intros Hne w r w' Ha H. unfold os_Create in H. gone_prim H.
  all: by rewrite lookup_insert_ne.
Qed.

Lemma gone_Rename old new : new <> path -> keeps (gone path) (os_Rename old new) (fun _ => True).
Proof.
  intros Hne w r w' Ha H. unfold os_Rename in H. gone_prim H.
  all: rewrite lookup_insert_ne by done; apply lookup_delete_None; by right.
Qed.

Lemma gone_Remove p : keeps (gone path) (os_Remove p) (fun _ => True).
Proof.
  intros w r w' Ha H. unfold os_Remove in H. gone_prim H.
  all: apply lookup_delete_None; by right.
Qed.

Lemma gone_saveMetadata md :
  OriginalPath md = path -> keeps (gone path) (saveMetadata md) (fun _ => True).
Proof.
  intros Ho. unfold saveMetadata.
  eapply keeps_bind; [apply gone_Create|intros fd _; apply gone_Encode].
  rewrite Ho. by apply append_ne_self.
Qed.

Lemma gone_overwrite_passes n : forall i fd size md,
  OriginalPath md = path ->
  keeps (gone path) (ShredGo.overwrite_passes n i fd size md)
    (fun md' => TempPath md' = TempPath md /\ OriginalPath md' = OriginalPath md).
Proof.
  induction n as [|n IH]; intros i fd size md Ho; simpl; [by apply keeps_ret|].
  eapply keeps_bind; [apply gone_rand|]. intros bs _.
  eapply keeps_bind; [apply gone_WriteAt0|]. intros _ _.
  eapply keeps_bind; [by apply gone_saveMetadata|]. intros _ _.
  eapply keeps_weaken; [by apply IH|]. done.
Qed.

Lemma gone_rename_rounds n : forall md,
  OriginalPath md = path -> extends path (TempPath md) ->
  keeps (gone path) (rename_rounds n md) (fun _ => True).
Proof.
  induction n as [|n IH]; intros md Ho Ht; simpl; [by apply keeps_ret|].
  eapply keeps_bind; [unfold randomString; eapply keeps_bind;
    [apply gone_rand|intros bs _; by apply (keeps_ret _ _ (fun _ => True))]|].
  intros s _.
  eapply keeps_bind; [apply gone_Rename, extends_ne, extends_append, Ht|]. intros _ _.
  eapply keeps_bind; [by apply gone_saveMetadata|]. intros _ _.
  apply IH; [done|]. simpl. by apply extends_append.
Qed.

Lemma gone_finish fd md : keeps (gone path) (finish fd md) (fun _ => True).
Proof.
  unfold finish. eapply keeps_bind; [apply gone_Truncate0|]. intros _ _.
  eapply keeps_bind; [apply gone_Remove|]. intros _ _. apply gone_Remove.
Qed.

(** What a fresh job does after its first rename has succeeded. *)
Lemma gone_after_rename passes info :
  let md := set_TempPath (path +:+ ".tmp") (mkMeta 0 "" path) in
  keeps (gone path)
    (let* metadata := (let* _ := saveMetadata md in ret md) in
     let* busy := ShredGo.isFileLocked (TempPath metadata) in
     if busy then fail BusyTemp else
     let* tempFile := os_OpenFile (TempPath metadata) in
     after_guard passes info metadata tempFile)
    (fun _ => True).
Proof.
  intros md.
  eapply keeps_bind.
  { eapply keeps_bind; [by apply gone_saveMetadata|].
    intros _ _. by apply (keeps_ret _ _ (fun m => m = md)). }
  intros ? ->.
  eapply keeps_bind; [apply gone_isFileLocked|]. intros [|] _; [apply keeps_fail|].
  eapply keeps_bind; [apply gone_OpenFile|]. intros fd _.
  unfold after_guard.
  eapply keeps_bind; [apply gone_Flock|]. intros _ _.
  eapply keeps_bind; [by apply gone_overwrite_passes|]. intros md1 [Ht1 Ho1].
  eapply keeps_bind; [apply gone_rename_rounds|]; [done| |intros; apply gone_finish].
  rewrite Ht1. exists ".tmp". done.
Qed.

End Gone.

(** For a job that starts without a checkpoint: as soon as a run of [Shred]
    of src/shred.go has done anything, the original path names nothing, and
    it stays so to the end of the run, however the run ends. *)
Lemma original_path_gone path passes w r w' :
  file_at w (path +:+ meta_suffix) = None ->
  ShredGo.Shred path passes w = (r, w') ->
  log w' <> log w ->
  names w' !! path = None.
Proof.
  intros Hcp H Hlog. unfold ShredGo.Shred in H.
  apply bind_inv in H as [(info & w1 & H1 & H)|(Hr & r0 & H1 & _)].
  2:{ apply os_Stat_inv in H1 as ((_&_&L&_)&_). by destruct Hlog. }
  apply os_Stat_inv in H1 as ((N1&I1&L1&R1&C1)&_).
  destruct (size_limit <? info).
  { unfold fail in H. by simplify_eq. }
  apply bind_inv in H as [(md0 & w2 & H2 & H)|(Hr & r0 & H2 & _)].
  2:{ apply load_or_init_inv in H2 as ((_&_&L&_)&_). destruct Hlog. congruence. }
  apply load_or_init_inv in H2 as ((N2&I2&L2&R2&C2)&_&_&HL).
  destruct (HL _ eq_refl) as [->|(i & f & Hf & _)].
  2:{ unfold file_at in *. rewrite N1, I1 in Hf. congruence. }
  unfold rename_once in H. rewrite decide_True in H by done.
  rewrite bind_assoc in H.
  apply bind_inv in H as [([] & w3 & H3 & H)|(Hr & r0 & H3 & Hr0 & _)].
  2:{ unfold os_Rename in H3. run_prim H3; try (exfalso; by eapply Hr0).
      all: destruct Hlog; simpl; congruence. }
  assert (Hg : gone path w3).
  { unfold os_Rename in H3. unfold gone. run_prim H3.
    all: rewrite lookup_insert_ne by (by apply append_ne_self).
    all: apply lookup_delete_None; by left. }
  cbv beta in H.
  by destruct (gone_after_rename path passes info w3 r w' Hg H).
Qed.

(** So the re-invocation of [Shred] on that disk fails in its first call,
    [os.Stat] of the original path: the code that loads the checkpoint and
    resumes is not reached, whatever the pass count. *)
Lemma resume_unreachable path passes w r w' passes' :
  file_at w (path +:+ meta_suffix) = None ->
  ShredGo.Shred path passes w = (r, w') ->
  log w' <> log w ->
  reinvoke (ShredGo.Shred path passes') w' = (Fail ENOENT, set_fates [] w').
Proof.
  intros Hcp H Hlog. pose proof (original_path_gone _ _ _ _ _ Hcp H Hlog) as Hg.
  unfold reinvoke.
  rewrite (stat_missing path passes' (set_fates [] w')); [done| |by left].
  unfold file_at. simpl. by rewrite Hg.
Qed.

(** ** What the file holds after a pass *)


Section Covered.

Variable fd size : nat.
Variable cp : string.
Variable n0 : nat.













Lemma fresh_ino_fresh w : inodes w !! fresh_ino w = None.
Proof. unfold fresh_ino. apply not_elem_of_dom, is_fresh. Qed.









End Covered.


(** ** The block loop of [overwriteDevice] *)

Lemma draw_app r c n m : draw r c (n + m) = draw r c n ++ draw r (c + n) m.
Proof. unfold draw. by rewrite seq_app, map_app. Qed.

Lemma write_at_0 bs old : write_at bs 0 old = overwrite bs old.
Proof. unfold write_at, overwrite. destruct bs; [done|by rewrite resize_0]. Qed.

(** Writing the next block after a prefix that was already replaced. *)
Lemma write_at_next (bs done_ old : bytes) :
  bs <> [] ->
  write_at bs (length done_) (done_ ++ drop (length done_) old)
  = (done_ ++ bs) ++ drop (length (done_ ++ bs)) old.
Proof.
  intros Hbs. unfold write_at. destruct bs as [|b bs]; [done|].
  rewrite resize_app by done. rewrite drop_app_add, drop_drop, length_app.
  by rewrite <- app_assoc.
Qed.

Lemma block_size_Z : Z.of_nat block_size = 4096.
Proof. reflexivity. Qed.

Lemma block_size_pos : (0 < block_size)%nat.
Proof. unfold block_size. lia. Qed.

#[local] Opaque block_size.

Lemma blocks_spec size k :
  0 <= size -> (k < blocks size)%nat <-> 4096 * Z.of_nat k < size.
Proof.
  intros Hs. unfold blocks.
  pose proof (Z.div_mod (size + 4095) 4096 ltac:(lia)).
  pose proof (Z.mod_pos_bound (size + 4095) 4096 ltac:(lia)).
  assert (0 <= (size + 4095) / 4096) by (apply Z.div_pos; lia).
  split; intros; lia.
Qed.

Lemma write_blocks_spec (device : nat) (old : bytes) (N : gmap string nat)
    (I : gmap nat Inode) (rg : nat -> Z) (c0 : nat) (size : Z) fuel :
  size <= 2 ^ 63 - 4096 ->
  forall (k : nat) w r w',
    (blocks size - k < fuel)%nat ->
    names w = N -> rng w = rg -> cursor w = (c0 + block_size * k)%nat ->
    (forall j, j <> device -> inodes w !! j = I !! j) ->
    blocks_written device old rg c0 k w ->
    write_blocks fuel device size (4096 * Z.of_nat k) w = (r, w') ->
    r <> Hang /\ names w' = N /\
    (forall j, j <> device -> inodes w' !! j = I !! j) /\
    exists k', (k <= k')%nat /\ blocks_written device old rg c0 k' w' /\
      (4096 * Z.of_nat k' < size -> forall a, r <> Ok a) /\
      (size <= 4096 * Z.of_nat k -> k' = k /\ r = Ok tt) /\
      (4096 * Z.of_nat k < size -> (k' <= blocks size)%nat).
Proof.
  intros Hsize. induction fuel as [|fuel IH]; intros k w r w' Hf HN HR HC HI HB H; [lia|].
  cbn [write_blocks] in H.
  destruct (4096 * Z.of_nat k <? size) eqn:E.
  2:{ apply Z.ltb_ge in E. unfold ret in H. simplify_eq.
      split; [done|]. split; [done|]. split; [done|]. exists k.
      split; [done|]. split; [done|]. split; [lia|]. split; [done|lia]. }
  apply Z.ltb_lt in E.
  assert (Hk : (k < blocks size)%nat) by (apply blocks_spec; lia).
  apply bind_inv in H as [(bs & w1 & H1 & H)|(Hr & r0 & H1 & Hr0 & Hm)].
  2:{ assert (r <> Hang /\ names w' = names w /\ inodes w' = inodes w) as (Hh & HN' & HI').
      { unfold rand_Read in H1. run_prim H1; try done; try (exfalso; by eapply Hr0).
        all: by destruct r. }
      split; [done|]. split; [congruence|]. split; [intros; rewrite HI'; auto|].
      exists k. split; [done|]. split.
      { destruct HB as (f & Hf' & Hc). exists f. by rewrite HI'. }
      split; [intros _ a; apply Hr|]. split; [lia|lia]. }
  assert (bs = draw rg (c0 + block_size * k) block_size /\ names w1 = names w /\
          inodes w1 = inodes w /\ rng w1 = rng w /\
          cursor w1 = (c0 + block_size * S k)%nat) as (-> & N1 & I1 & R1 & C1).
  { unfold rand_Read in H1. run_prim H1; simpl in *; subst.
    all: rewrite ?HC; repeat split; try done; lia. }
  apply bind_inv in H as [([] & w2 & H2 & H)|(Hr & r0 & H2 & Hr0 & Hm)].
  2:{ assert (r <> Hang /\ names w' = names w1 /\ inodes w' = inodes w1) as (Hh & HN' & HI').
      { unfold WriteAt in H2. rewrite (proj2 (Z.ltb_ge _ _)) in H2 by lia.
        run_prim H2; try done; try (exfalso; by eapply Hr0).
        all: by destruct r. }
      split; [done|]. split; [congruence|]. split; [intros; rewrite HI', I1; auto|].
      exists k. split; [done|]. split.
      { destruct HB as (f & Hf' & Hc). exists f. by rewrite HI', I1. }
      split; [intros _ a; apply Hr|]. split; [lia|lia]. }
  assert (names w2 = N /\ rng w2 = rg /\ cursor w2 = (c0 + block_size * S k)%nat /\
          (forall j, j <> device -> inodes w2 !! j = I !! j) /\
          blocks_written device old rg c0 (S k) w2) as (N2 & R2 & C2 & I2 & B2).
  { destruct HB as (f & Hf' & Hc).
    unfold WriteAt in H2. rewrite (proj2 (Z.ltb_ge _ _)) in H2 by lia.
    rewrite <- I1 in Hf'.
    unfold syscall, next_fate in H2.
    destruct (fates w1) as [|[| |] fs] eqn:EF; cbn [fst snd set_fates inodes] in H2;
      rewrite ?Hf' in H2; simplify_eq; cbn [names rng cursor inodes emit set_inodes set_fates].
    all: split; [congruence|]; split; [congruence|]; split; [congruence|].
    all: split; [intros j Hj; rewrite lookup_insert_ne by done; rewrite I1; auto|].
    all: eexists; split; [apply lookup_insert_eq|]; cbn [content set_content content_bytes].
    all: rewrite Hc.
    all: replace (Z.to_nat (4096 * Z.of_nat k)) with (length (draw (rng w) c0 (block_size * k)))
           by (rewrite length_draw; pose proof block_size_Z; lia).
    all: replace (drop (block_size * k) old)
           with (drop (length (draw (rng w) c0 (block_size * k))) old)
           by (by rewrite length_draw).
    all: rewrite write_at_next
           by (intros Hnil; apply (f_equal length) in Hnil; rewrite length_draw in Hnil;
               pose proof block_size_pos; simpl in Hnil; lia).
    all: rewrite ?R1.
    all: replace (block_size * S k)%nat with (block_size * k + block_size)%nat by lia.
    all: rewrite draw_app, length_app, !length_draw; done. }
  assert (Hw : wrap64 (4096 * Z.of_nat k + 4096) = 4096 * Z.of_nat (S k)).
  { unfold wrap64. rewrite Z.mod_small; lia. }
  rewrite Hw in H.
  destruct (IH (S k) w2 r w' ltac:(lia) N2 R2 C2 I2 B2 H)
    as (Hh & HN' & HI' & k' & Hk' & HB' & Hno & Hyes & Hle).
  split; [done|]. split; [done|]. split; [done|].
  exists k'. split; [lia|]. split; [done|]. split; [done|]. split; [lia|].
  intros _. destruct (decide (4096 * Z.of_nat (S k) < size)) as [Hlt|Hge]; [auto|].
  destruct Hyes as [-> _]; [lia|]. lia.
Qed.

(** The loop ends for every size, also when the counter wraps: the negative
    offset that results is refused by [WriteAt]. *)
Lemma write_blocks_returns device size fuel : forall written w r w',
  size <= written \/ (written < 0 /\ (1 <= fuel)%nat) \/
  (0 <= written < 2 ^ 63 /\ (Z.to_nat ((size - written - 1) / 4096) + 2 <= fuel)%nat) ->
  write_blocks fuel device size written w = (r, w') -> r <> Hang.
Proof.
  induction fuel as [|fuel IH]; intros written w r w' Hc H; cbn [write_blocks] in H.
  - destruct (written <? size) eqn:E.
    + apply Z.ltb_lt in E. lia.
    + unfold ret in H. by simplify_eq.
  - destruct (written <? size) eqn:E; [|unfold ret in H; by simplify_eq].
    apply Z.ltb_lt in E.
    apply bind_inv in H as [(bs & w1 & H1 & H)|(Hr & r0 & H1 & Hr0 & Hm)].
    2:{ unfold rand_Read in H1. run_prim H1; try done; by destruct r. }
    apply bind_inv in H as [([] & w2 & H2 & H)|(Hr & r0 & H2 & Hr0 & Hm)].
    2:{ unfold WriteAt in H2. destruct (written <? 0).
        - unfold fail in H2. simplify_eq. by destruct r.
        - run_prim H2; try done; by destruct r. }
    destruct (decide (written < 0)) as [Hneg|Hpos].
    { unfold WriteAt in H2. rewrite (proj2 (Z.ltb_lt _ _)) in H2 by done.
      unfold fail in H2. by simplify_eq. }
    destruct Hc as [?|[[? ?]|[Hw Hf]]]; [lia|lia|].
    refine (IH _ _ _ _ _ H).
    unfold wrap64.
    destruct (decide (written + 4096 < 2 ^ 63)) as [Hs|Hb].
    + rewrite Z.mod_small by lia.
      replace (written + 4096 + 2 ^ 63 - 2 ^ 63) with (written + 4096) by lia.
      destruct (decide (size <= written + 4096)); [by left|right; right].
      split; [lia|].
      replace (size - (written + 4096) - 1) with ((size - written - 1) + (-1) * 4096) by lia.
      rewrite Z.div_add by lia.
      assert (1 <= (size - written - 1) / 4096) by (apply Z.div_le_lower_bound; lia).
      lia.
    + right; left. split; [|lia].
      replace (written + 4096 + 2 ^ 63) with ((written + 4096 - 2 ^ 63) + 1 * 2 ^ 64) by lia.
      rewrite Z.mod_add by lia. rewrite Z.mod_small by lia. lia.
Qed.

Lemma File_Stat_inv fd w r w' :
  File_Stat fd w = (r, w') ->
  quiet w w' /\ r <> Hang /\
  forall S, r = Ok S -> exists f, inodes w !! fd = Some f /\ S = inode_size f.
Proof.
  unfold File_Stat, quiet. intros H. run_prim H;
    repeat split; try done; intros; simplify_eq; eauto.
Qed.

Lemma os_OpenFile_file p w i w' :
  os_OpenFile p w = (Ok i, w') ->
  exists f, file_at w p = Some (i, f) /\ writable f = true.
Proof.
  unfold os_OpenFile. intros H. unfold syscall, next_fate in H.
  destruct (fates w) as [|[| |] fs]; simpl in H; try done.
  - destruct (file_at w p) as [[j f]|] eqn:E; [|done].
    destruct (writable f) eqn:Ew; simplify_eq. eauto.
  - unfold file_at in *. simpl in H.
    destruct (names w !! p) as [j|]; [|done].
    destruct (inodes w !! j) as [f|]; [|done].
    destruct (writable f) eqn:Ew; simplify_eq. eauto.
Qed.

Lemma os_OpenFile_Hang p w r w' : os_OpenFile p w = (r, w') -> r <> Hang.
Proof. unfold os_OpenFile, file_at. intros H. run_prim H; done. Qed.

(** ** The [Shred] that works on a temporary file *)

Lemma temp_name_fresh w : names w !! temp_name w = None.
Proof. apply fresh_string_fresh. Qed.

Lemma TempFile_inv w r w' :
  TempFile w = (r, w') ->
  ((r = Fail EIO \/ r = Killed) /\ quiet w w') \/
  (r = Ok (fresh_ino w, temp_name w) /\
   names w' = <[temp_name w := fresh_ino w]> (names w) /\
   inodes w' = <[fresh_ino w := mkInode (Raw []) true false]> (inodes w) /\
   log w' = log w ++ [EvCreate (temp_name w)] /\
   rng w' = rng w /\ cursor w' = cursor w).
Proof.
  unfold TempFile, syscall, next_fate, quiet. intros H.
  destruct (fates w) as [|[| |] fs]; simpl in H; simplify_eq; auto.
  - right. by repeat split.
  - right. by repeat split.
  - left. by repeat split; auto.
  - left. by repeat split; auto.
Qed.

Lemma Sync_inv fd w r w' : Sync fd w = (r, w') -> quiet w w' /\ r <> Hang.
Proof. unfold Sync, quiet. intros H. run_prim H; by repeat split. Qed.

Lemma rand_Read_inv n w r w' :
  rand_Read n w = (r, w') ->
  names w' = names w /\ inodes w' = inodes w /\ rng w' = rng w /\ r <> Hang /\
  (forall bs, r = Ok bs ->
     bs = draw (rng w) (cursor w) n /\ log w' = log w ++ [EvRand bs]) /\
  ((forall a, r <> Ok a) -> log w' = log w).
Proof.
  unfold rand_Read, syscall, next_fate. intros H.
  destruct (fates w) as [|[| |] fs]; simpl in H; simplify_eq; simpl.
  all: repeat split; try done; intros; simplify_eq; try done.
  all: match goal with H : forall a, Ok _ <> Ok a |- _ => exfalso; by eapply H end.
Qed.

Lemma WriteAt0_inv fd bs w r w' :
  WriteAt0 fd bs w = (r, w') ->
  names w' = names w /\ rng w' = rng w /\ r <> Hang /\
  (forall j, j <> fd -> inodes w' !! j = inodes w !! j) /\
  (r = Ok tt -> log w' = log w ++ [EvWrite fd bs]) /\
  ((forall a, r <> Ok a) -> log w' = log w).
Proof.
  unfold WriteAt0, syscall, next_fate. intros H.
  destruct (fates w) as [|[| |] fs]; simpl in H;
    try destruct (inodes w !! fd) as [f|]; simplify_eq; simpl.
  all: repeat split; try done; intros; simplify_eq; try done.
  all: try by rewrite lookup_insert_ne.
  all: match goal with H : forall a, Ok _ <> Ok a |- _ => exfalso; by eapply H end.
Qed.

Lemma os_Rename_inv old new w r w' :
  os_Rename old new w = (r, w') ->
  r <> Hang /\ inodes w' = inodes w /\ rng w' = rng w /\
  ((r = Ok tt /\ exists i, names w !! old = Some i /\
      names w' = <[new := i]> (delete old (names w)) /\
      log w' = log w ++ [EvRename old new]) \/
   ((forall a, r <> Ok a) /\ names w' = names w /\ log w' = log w)).
Proof.
  unfold os_Rename, syscall, next_fate. intros H.
  destruct (fates w) as [|[| |] fs]; simpl in H;
    try destruct (names w !! old) as [i|] eqn:E; simplify_eq; simpl.
  all: repeat split; try done; eauto 8.
Qed.

Lemma os_Remove_inv p w r w' :
  os_Remove p w = (r, w') ->
  r <> Hang /\ inodes w' = inodes w /\ rng w' = rng w /\
  ((r = Ok tt /\ is_Some (names w !! p) /\
      names w' = delete p (names w) /\ log w' = log w ++ [EvRemove p]) \/
   ((forall a, r <> Ok a) /\ names w' = names w /\ log w' = log w)).
Proof.
  unfold os_Remove, syscall, next_fate. intros H.
  destruct (fates w) as [|[| |] fs]; simpl in H;
    try destruct (names w !! p) as [i|] eqn:E; simplify_eq; simpl.
  all: repeat split; try done; eauto 8.
Qed.

Lemma write_passes_inv n t bs : forall w r w',
  ShredTemp.write_passes n t bs w = (r, w') ->
  names w' = names w /\ rng w' = rng w /\ r <> Hang /\
  (forall j, j <> t -> inodes w' !! j = inodes w !! j) /\
  exists k, (k <= n)%nat /\ log w' = log w ++ replicate k (EvWrite t bs) /\
    (r = Ok tt -> k = n).
Proof.
  induction n as [|n IH]; intros w r w' H; simpl in H.
  - unfold ret in H. simplify_eq. repeat split; try done.
    exists 0%nat. simpl. by rewrite app_nil_r.
  - apply bind_inv in H as [([] & w1 & H1 & H)|(Hr & r0 & H1 & Hr0 & Hm)].
    2:{ apply WriteAt0_inv in H1 as (N & R & Hh & I & _ & L).
        repeat split; try done; [by destruct r0, r|].
        exists 0%nat. simpl. rewrite app_nil_r. split; [lia|]. split; [auto|].
        intros ->. by destruct (Hr tt). }
    apply WriteAt0_inv in H1 as (N1 & R1 & _ & I1 & L1 & _). specialize (L1 eq_refl).
    apply bind_inv in H as [([] & w2 & H2 & H)|(Hr & r0 & H2 & Hr0 & Hm)].
    2:{ apply Sync_inv in H2 as ((N2 & I2 & L2 & R2 & C2) & Hh).
        split; [congruence|]. split; [congruence|]. split; [by destruct r0, r|].
        split; [intros; rewrite I2; auto|].
        exists 1%nat. simpl. split; [lia|]. split; [congruence|].
        intros ->. by destruct (Hr tt). }
    apply Sync_inv in H2 as ((N2 & I2 & L2 & R2 & C2) & _).
    destruct (IH _ _ _ H) as (N & R & Hh & I & k & Hk & L & Hok).
    split; [congruence|]. split; [congruence|]. split; [done|].
    split; [intros; rewrite I, I2; auto|].
    exists (S k). split; [lia|]. split; [|intros; f_equal; auto].
    rewrite L, L2, L1. simpl. by rewrite <- app_assoc.
Qed.

Lemma defer_inv {A} (cleanup : M unit) (body : M A) w r w' :
  defer cleanup body w = (r, w') ->
  exists rb wb, body w = (rb, wb) /\
    (((rb = Killed \/ rb = Hang) /\ r = rb /\ w' = wb) \/
     (rb <> Killed /\ rb <> Hang /\
      exists rc, cleanup wb = (rc, w') /\
        ((rc = Killed /\ r = Killed) \/ (rc = Hang /\ r = Hang) \/
         (rc <> Killed /\ rc <> Hang /\ r = rb)))).
Proof.
  unfold defer. intros H. destruct (body w) as [rb wb]. exists rb, wb. split; [done|].
  destruct rb as [a|e| |]; simplify_eq; auto.
  all: right; split; [done|]; split; [done|].
  all: destruct (cleanup wb) as [rc wc]; exists rc.
  all: destruct rc as [[]|e'| |]; simplify_eq; (split; [done|]); auto 10.
Qed.

Lemma temp_body_inv path passes t name bs w r w' :
  names w !! name = Some t ->
  temp_body path passes t name bs w = (r, w') ->
  r <> Hang /\ rng w' = rng w /\
  (forall j, j <> t -> inodes w' !! j = inodes w !! j) /\
  exists k D, (k <= Z.to_nat passes)%nat /\
    log w' = log w ++ replicate k (EvWrite t bs) ++ D /\
    (((forall a, r <> Ok a) /\ D = [] /\ names w' = names w) \/
     ((forall a, r <> Ok a) /\ k = Z.to_nat passes /\ D = [EvRename name path] /\
      names w' = <[path := t]> (delete name (names w))) \/
     (r = Ok tt /\ k = Z.to_nat passes /\ D = [EvRename name path; EvRemove path] /\
      names w' = delete path (delete name (names w)))).
Proof.
  intros Hname H. unfold temp_body in H.
  apply bind_inv in H as [([] & w1 & H1 & H)|(Hr & r0 & H1 & Hr0 & Hm)].
  2:{ apply write_passes_inv in H1 as (N & R & Hh & I & k & Hk & L & _).
      split; [by destruct r0, r|]. split; [done|]. split; [done|].
      exists k, []. rewrite app_nil_r. split; [done|]. split; [done|]. left. done. }
  apply write_passes_inv in H1 as (N1 & R1 & _ & I1 & k & Hk & L1 & Hok).
  specialize (Hok eq_refl). subst k.
  apply bind_inv in H as [([] & w2 & H2 & H)|(Hr & r0 & H2 & Hr0 & Hm)].
  2:{ apply Sync_inv in H2 as ((N2 & I2 & L2 & R2 & C2) & Hh).
      split; [by destruct r0, r|]. split; [congruence|].
      split; [intros; rewrite I2; auto|].
      exists (Z.to_nat passes), []. rewrite app_nil_r.
      split; [done|]. split; [congruence|]. left. repeat split; [done|congruence]. }
  apply Sync_inv in H2 as ((N2 & I2 & L2 & R2 & C2) & _).
  apply bind_inv in H as [([] & w3 & H3 & H)|(Hr & r0 & H3 & Hr0 & Hm)].
  2:{ apply os_Rename_inv in H3 as (Hh & I3 & R3 & [(-> & _)|(_ & N3 & L3)]);
        [by destruct (Hr0 tt)|].
      split; [by destruct r0, r|]. split; [congruence|].
      split; [intros; rewrite I3, I2; auto|].
      exists (Z.to_nat passes), []. rewrite app_nil_r.
      split; [done|]. split; [congruence|]. left. repeat split; [done|congruence]. }
  apply os_Rename_inv in H3 as (_ & I3 & R3 & [(_ & i & Hi & N3 & L3)|(Hr0 & _)]);
    [|by destruct (Hr0 tt)].
  rewrite N2, N1, Hname in Hi. injection Hi as <-.
  rewrite N2, N1 in N3.
  apply os_Remove_inv in H as (Hh & I4 & R4 & [(-> & _ & N4 & L4)|(Hr & N4 & L4)]).
  - split; [done|]. split; [congruence|].
    split; [intros; rewrite I4, I3, I2; auto|].
    exists (Z.to_nat passes), [EvRename name path; EvRemove path].
    split; [done|]. split.
    { rewrite L4, L3, L2, L1. by rewrite <- !app_assoc. }
    right; right. repeat split; try done. rewrite N4, N3. apply delete_insert_eq.
  - split; [done|]. split; [congruence|].
    split; [intros; rewrite I4, I3, I2; auto|].
    exists (Z.to_nat passes), [EvRename name path].
    split; [done|]. split.
    { rewrite L4, L3, L2, L1. by rewrite <- !app_assoc. }
    right; left. repeat split; try done. congruence.
Qed.

Lemma Flock_Ok fd w w' : Flock fd w = (Ok tt, w') -> is_Some (inodes w !! fd).
Proof. unfold Flock. intros H. run_prim H; by eexists. Qed.

Lemma ShredTemp_run path passes w r w' :
  ShredTemp.Shred path passes w = (r, w') -> temp_shape path passes w r w'.
Proof.
  intros H. unfold ShredTemp.Shred in H. unfold temp_shape. cbv zeta.
  apply bind_inv in H as [(file & w1 & H1 & H)|(Hr & r0 & H1 & Hr0 & Hm)].
  2:{ apply os_OpenFile_inv in H1 as ((N1&I1&L1&_)&_). left. auto. }
  destruct (os_OpenFile_file _ _ _ _ H1) as (f & Hfile & Hwr).
  pose proof (os_OpenFile_inv _ _ _ _ H1) as ((N1&I1&L1&R1&C1)&Hp).
  specialize (Hp _ eq_refl).
  apply bind_inv in H as [([] & w2 & H2 & H)|(Hr & r0 & H2 & Hr0 & Hm)].
  2:{ apply Flock_inv in H2 as (N2&I2&L2&_). left.
      split; [done|]. split; [congruence|]. split; [congruence|]. left. congruence. }
  apply Flock_inv in H2 as (N2&I2&L2&R2&C2).
  apply bind_inv in H as [(info & w3 & H3 & H)|(Hr & r0 & H3 & Hr0 & Hm)].
  2:{ apply File_Stat_inv in H3 as ((N3&I3&L3&_)&_). left.
      split; [done|]. split; [congruence|]. split; [congruence|]. left. congruence. }
  apply File_Stat_inv in H3 as ((N3&I3&L3&R3&C3)&_&HS).
  destruct (HS _ eq_refl) as (f0 & Hf0 & ->).
  assert (f0 = f) as ->.
  { unfold file_at in Hfile. rewrite I2, I1 in Hf0. repeat case_match; by simplify_eq. }
  assert (Hsz : inode_size f = size_at w path) by (unfold size_at; by rewrite Hfile).
  cbv zeta in H. rewrite Hsz in H.
  apply bind_inv in H as [(bs & w4 & H4 & H)|(Hr & r0 & H4 & Hr0 & Hm)].
  2:{ apply rand_Read_inv in H4 as (N4&I4&R4&_&_&L4). left.
      split; [done|]. split; [congruence|]. split; [congruence|]. left.
      rewrite L4 by done. congruence. }
  apply rand_Read_inv in H4 as (N4&I4&R4&_&HB&_).
  destruct (HB _ eq_refl) as [-> L4]. rewrite R3, R2, R1, C3, C2, C1 in L4.
  rewrite R3, R2, R1, C3, C2, C1 in H.
  set (bs := draw (rng w) (cursor w) (Z.to_nat (size_at w path))) in *.
  assert (Nw4 : names w4 = names w) by congruence.
  assert (Iw4 : inodes w4 = inodes w) by congruence.
  assert (Lw4 : log w4 = log w ++ [EvRand bs]) by congruence.
  apply bind_inv in H as [([t name] & w5 & H5 & H)|(Hr & r0 & H5 & Hr0 & Hm)].
  2:{ apply TempFile_inv in H5 as [(_ & N5 & I5 & L5 & _)|(-> & _)]; [|by destruct (Hr0 (fresh_ino w4, temp_name w4))].
      left. split; [done|]. split; [congruence|]. split; [congruence|]. right. congruence. }
  apply TempFile_inv in H5 as [([?|?] & _)|(Heq & N5 & I5 & L5 & R5 & C5)]; [done|done|].
  injection Heq as -> ->.
  assert (Ht : fresh_ino w4 = fresh_ino w) by (unfold fresh_ino; by rewrite Iw4).
  assert (Hn : temp_name w4 = temp_name w) by (unfold temp_name; by rewrite Nw4).
  rewrite Ht, Hn in *. rewrite Nw4 in N5. rewrite Iw4 in I5.
  set (t := fresh_ino w) in *. set (name := temp_name w) in *.
  pose proof (temp_name_fresh w) as Hfresh. fold name in Hfresh.
  assert (Hnp : name <> path) by (intros ->; rewrite Hp in Hfresh; done).
  right. split; [by eexists|].
  apply defer_inv in H as (rb & wb & Hb & Hcases).
  fold (temp_body path passes t name bs) in Hb.
  apply temp_body_inv in Hb as (Hhb & Rb & Ib & k & D & Hk & Lb & Hshape);
    [|by rewrite N5, lookup_insert_eq].
  assert (Iwb : forall j, j <> t -> inodes wb !! j = inodes w !! j).
  { intros j Hj. rewrite Ib by done. rewrite I5. by rewrite lookup_insert_ne. }
  assert (Lwb : log wb = log w ++ [EvRand bs; EvCreate name] ++ replicate k (EvWrite t bs) ++ D).
  { rewrite Lb, L5, Lw4. by rewrite <- !app_assoc. }
  destruct Hcases as [([->| ->] & -> & ->)|(Hk1 & Hk2 & rc & Hc & Hrc)]; [|done|].
  { (* killed in the body *)
    split; [done|]. exists k, D. split; [done|].
    destruct Hshape as [(_ & -> & Nb)|[(_ & -> & -> & Nb)|(? & _)]]; [| |done].
    - split; [by rewrite Lwb|]. left. split; [done|]. split; [done|]. left.
      split; [done|]. congruence.
    - split; [by rewrite Lwb|]. right; left. split; [done|]. split; [done|].
      split; [done|]. split; [done|]. rewrite Nb, N5. by rewrite delete_insert_id. }
  apply os_Remove_inv in Hc as (Hhc & Ic & Rc & Hrm).
  assert (Hr : r = Killed \/ r = rb).
  { destruct Hrc as [(_ & ->)|[(? & _)|(_ & _ & ->)]]; auto. done. }
  split; [intros; rewrite Ic; auto|].
  destruct Hshape as [(Hnok & -> & Nb)|[(Hnok & -> & -> & Nb)|(-> & -> & -> & Nb)]].
  - (* the body stopped before the rename *)
    assert (Hr' : (forall a, r <> Ok a) /\ r <> Hang).
    { destruct Hr as [-> | ->]; [done|]. split; [done|]. done. }
    destruct Hrm as [(_ & _ & Nc & Lc)|(_ & Nc & Lc)].
    + exists k, [EvRemove name]. split; [done|]. split.
      { rewrite Lc, Lwb. rewrite app_nil_r. by rewrite <- !app_assoc. }
      left. split; [apply Hr'|]. split; [apply Hr'|]. right. split; [done|].
      rewrite Nc, Nb, N5. by apply delete_insert_id.
    + exists k, []. split; [done|]. split; [by rewrite Lc, Lwb|].
      left. split; [apply Hr'|]. split; [apply Hr'|]. left. split; [done|]. congruence.
  - (* renamed, not removed *)
    assert (Hr' : (forall a, r <> Ok a) /\ r <> Hang).
    { destruct Hr as [-> | ->]; [done|]. split; [done|]. done. }
    assert (Nwb : names wb = <[path := t]> (names w)).
    { rewrite Nb, N5. by rewrite delete_insert_id. }
    destruct Hrm as [(_ & Hs & _)|(_ & Nc & Lc)].
    { rewrite Nwb, lookup_insert_ne, Hfresh in Hs by done. by destruct Hs. }
    exists (Z.to_nat passes), [EvRename name path]. split; [done|].
    split; [by rewrite Lc, Lwb|]. right; left.
    split; [apply Hr'|]. split; [apply Hr'|]. split; [done|]. split; [done|]. congruence.
  - (* removed *)
    assert (Nwb : names wb = delete path (names w)).
    { rewrite Nb, N5. by rewrite delete_insert_id. }
    destruct Hrm as [(_ & Hs & _)|(_ & Nc & Lc)].
    { rewrite Nwb, lookup_delete_ne, Hfresh in Hs by done. by destruct Hs. }
    exists (Z.to_nat passes), [EvRename name path; EvRemove path]. split; [done|].
    split; [by rewrite Lc, Lwb|]. right; right.
    split; [destruct Hr; auto|]. split; [done|]. split; [done|]. congruence.
Qed.

(** ** Runs that nothing disturbs *)

Lemma syscall_calm {A} (body : M A) w : fates w = [] -> syscall body w = body w.
Proof. unfold syscall, next_fate. by intros ->. Qed.

Lemma bind_Ok {A B} (m : M A) (k : A -> M B) w a w1 :
  m w = (Ok a, w1) -> bind m k w = k a w1.
Proof. unfold bind. by intros ->. Qed.

Lemma bind_Fail {A B} (m : M A) (k : A -> M B) w e w1 :
  m w = (Fail e, w1) -> bind m k w = (Fail e, w1).
Proof. unfold bind. by intros ->. Qed.

Lemma bind_Hang {A B} (m : M A) (k : A -> M B) w w1 :
  m w = (Hang, w1) -> bind m k w = (Hang, w1).
Proof. unfold bind. by intros ->. Qed.

Lemma os_Stat_calm p w i f :
  fates w = [] -> file_at w p = Some (i, f) -> os_Stat p w = (Ok (inode_size f), w).
Proof. intros Hf Hp. unfold os_Stat. rewrite syscall_calm by done. by rewrite Hp. Qed.

Lemma os_OpenFile_calm p w i f :
  fates w = [] -> file_at w p = Some (i, f) ->
  os_OpenFile p w = (if writable f then Ok i else Fail EACCES, w).
Proof.
  intros Hf Hp. unfold os_OpenFile. rewrite syscall_calm by done. rewrite Hp.
  by destruct (writable f).
Qed.

Lemma Flock_calm fd w f :
  fates w = [] -> inodes w !! fd = Some f ->
  Flock fd w = (if locked f then Hang else Ok tt, w).
Proof.
  intros Hf Hp. unfold Flock. rewrite syscall_calm by done. rewrite Hp.
  by destruct (locked f).
Qed.

Lemma load_or_init_calm path w :
  fates w = [] ->
  exists md, load_or_init path w = (Ok md, w) /\
    (names w !! (path +:+ meta_suffix) = None -> md = mkMeta 0 "" path).
Proof.
  intros Hf. unfold load_or_init, loadMetadata, catch, bind, os_Open, Decode, ret, file_at.
  rewrite !syscall_calm by done.
  destruct (names w !! (path +:+ meta_suffix)) as [j|] eqn:E; [|by eexists].
  destruct (inodes w !! j) as [g|] eqn:Eg; [|by eexists].
  rewrite !syscall_calm by done. rewrite Eg.
  destruct (content g); eexists; (split; [done|]); done.
Qed.

Lemma file_at_inv w p i f :
  file_at w p = Some (i, f) -> names w !! p = Some i /\ inodes w !! i = Some f.
Proof. unfold file_at. intros H. repeat case_match; by simplify_eq. Qed.

Lemma os_Rename_calm old new w i :
  fates w = [] -> names w !! old = Some i ->
  os_Rename old new w
  = (Ok tt, emit (EvRename old new) (set_names (<[new := i]> (delete old (names w))) w)).
Proof. intros Hf Hn. unfold os_Rename. rewrite syscall_calm by done. by rewrite Hn. Qed.


(** ** The checkpoint store *)

Lemma os_Create_Ok p w j w1 :
  os_Create p w = (Ok j, w1) ->
  names w1 !! p = Some j /\
  exists f, inodes w1 !! j = Some f /\ content f = Raw [] /\
  log w1 = log w ++ [EvCreate p].
Proof.
  unfold os_Create, syscall, next_fate. intros H.
  destruct (fates w) as [|[| |] fs]; simpl in H; try done.
  all: destruct (names w !! p) as [i|] eqn:E; simplify_eq; simpl.
  all: try (destruct (inodes w !! i) as [f|] eqn:Ei; [|done];
            destruct (writable f); simplify_eq; simpl;
            split; [done|]; eexists; split; [apply lookup_insert_eq|done]).
  all: split; [apply lookup_insert_eq|]; eexists; split; [apply lookup_insert_eq|done].
Qed.

Lemma os_Create_quiet p w r w1 :
  os_Create p w = (r, w1) -> (forall a, r <> Ok a) -> quiet w w1.
Proof.
  unfold os_Create, quiet. intros H Hr. run_prim H; try done.
  all: exfalso; by eapply Hr.
Qed.

Lemma Encode_inv fd m w r w1 :
  Encode fd m w = (r, w1) ->
  names w1 = names w /\
  ((r = Ok tt /\ exists f, inodes w !! fd = Some f /\
      inodes w1 = <[fd := set_content (Json m) f]> (inodes w)) \/
   ((forall a, r <> Ok a) /\ inodes w1 = inodes w /\ log w1 = log w /\
    (is_Some (inodes w !! fd) -> r = Fail EIO \/ r = Killed))).
Proof.
  unfold Encode, syscall, next_fate. intros H.
  destruct (fates w) as [|[| |] fs]; simpl in H;
    try destruct (inodes w !! fd) as [f|] eqn:E; simplify_eq; simpl.
  all: split; [done|]; first [left; split; [done|]; by eexists | right; repeat split; auto].
  all: intros [? ?]; done.
Qed.


Lemma loadMetadata_calm path w j f :
  fates w = [] -> file_at w (path +:+ meta_suffix) = Some (j, f) ->
  loadMetadata path w
  = (match content f with
     | Json m => Ok (m, None)
     | Raw _ => Ok (zero_metadata, Some EDECODE)
     end, w).
Proof.
  intros Hf Hfile. destruct (file_at_inv _ _ _ _ Hfile) as [Hn Hi].
  unfold loadMetadata, catch, bind, os_Open, Decode, ret.
  rewrite syscall_calm by done. rewrite Hfile.
  rewrite syscall_calm by done. rewrite Hi. by destruct (content f).
Qed.




Lemma charset_alnum : forallb is_alnum (list_ascii_of_string charset) = true.
Proof. vm_compute. reflexivity. Qed.

Lemma pick_is_alnum b : is_alnum (pick b) = true.
Proof.
  pose proof (pick_in_charset b) as Hin.
  pose proof charset_alnum as Hall. rewrite forallb_forall in Hall.
  apply Hall. apply list_elem_of_In. exact Hin.
Qed.


(** ** The disk in the middle of a fresh job *)

Section Working.

Variable N : gmap string nat.

Variable I : gmap nat Inode.

Variable fd jc : nat.

Variable f : Inode.

Variable cp : string.

Hypothesis Hfdjc : fd <> jc.









End Working.




Section WorkingLoops.

Variable N : gmap string nat.

Variable I : gmap nat Inode.

Variable fd jc : nat.

Variable f : Inode.

Variable cp : string.

Hypothesis Hfdjc : fd <> jc.



End WorkingLoops.



(** ** The disk after a fresh job *)










(** ** What a run leaves alone *)

Section Apart.

Variable W cp : string.

Variable protected : nat -> Prop.

Variable N : gmap string nat.

Variable I : gmap nat Inode.

Lemma inside_append t s : inside W t -> s <> "" -> inside W (t +:+ s).
Proof.
  intros [->|He] Hs; right; [by exists s|by apply extends_append].
Qed.

Lemma apart_quiet w w' :
  names w' = names w -> inodes w' = inodes w -> (apart W cp protected N I) w -> (apart W cp protected N I) w'.
Proof. unfold apart. intros -> ->. done. Qed.

Ltac apart_prim H :=
  unfold file_at in H; run_prim H;
  (split; [first [done | by (eapply apart_quiet; [| |eassumption])]
          |intros; by simplify_eq]).

Lemma apart_OpenFile p : keeps (apart W cp protected N I) (os_OpenFile p) (fun _ => True).
Proof. intros w r w' Ha H. unfold os_OpenFile in H. apart_prim H. Qed.

Lemma apart_Flock fd : keeps (apart W cp protected N I) (Flock fd) (fun _ => True).
Proof. intros w r w' Ha H. unfold Flock in H. apart_prim H. Qed.

Lemma apart_isFileLocked p : keeps (apart W cp protected N I) (ShredGo.isFileLocked p) (fun _ => True).
Proof.
  intros w r w' Ha H. split; [|done].
  apply isFileLocked_inv in H as [(_ & N1 & I1 & _)|(b & _ & N1 & I1 & _)];
    by eapply apart_quiet.
Qed.

Lemma apart_rand n : keeps (apart W cp protected N I) (rand_Read n) (fun bs => length bs = n).
Proof.
  intros w r w' Ha H. apply rand_Read_inv in H as (N1 & I1 & _ & _ & Hbs & _).
  split; [by eapply apart_quiet|]. intros bs ->. destruct (Hbs _ eq_refl) as [-> _].
  apply length_draw.
Qed.

Lemma apart_WriteAt0 fd bs : ~ protected fd -> keeps (apart W cp protected N I) (WriteAt0 fd bs) (fun _ => True).
Proof.
  intros Hfd w r w' [Hn Hi] H. split; [|done].
  apply WriteAt0_inv in H as (N1 & _ & _ & I1 & _).
  split; [intros; rewrite N1; auto|].
  intros j g Hj Hg. rewrite N1, I1; [by apply Hi|]. intros ->. done.
Qed.

Lemma apart_Truncate0 fd : ~ protected fd -> keeps (apart W cp protected N I) (Truncate0 fd) (fun _ => True).
Proof.
  intros Hfd w r w' [Hn Hi] H. split; [|done].
  assert (names w' = names w /\ forall j, j <> fd -> inodes w' !! j = inodes w !! j)
    as [N1 I1].
  { unfold Truncate0 in H. run_prim H; split; try done.
    all: intros; simpl; by rewrite lookup_insert_ne. }
  split; [intros; rewrite N1; auto|].
  intros j g Hj Hg. rewrite N1, I1; [by apply Hi|]. intros ->. done.
Qed.

Lemma apart_Rename old new :
  inside W old -> inside W new -> new <> cp ->
  keeps (apart W cp protected N I) (os_Rename old new) (fun _ => True).
Proof.
  intros Ho Hnw Hc w r w' [Hn Hi] H. split; [|done].
  apply os_Rename_inv in H as (_ & I1 & _ & [(_ & i & _ & N1 & _)|(_ & N1 & _)]).
  - split.
    + intros q Hq Hqc. rewrite N1.
      rewrite lookup_insert_ne by (intros ->; done).
      rewrite lookup_delete_ne by (intros ->; done). auto.
    + intros j g Hj Hg. rewrite I1, N1. split; [by apply (Hi j g)|].
      rewrite lookup_insert_ne by done.
      destruct (decide (old = cp)) as [->|Hoc];
        [by rewrite lookup_delete_eq|rewrite lookup_delete_ne by done].
      by apply (Hi j g).
  - by eapply apart_quiet; [| |split].
Qed.

Lemma apart_Remove p : inside W p \/ p = cp -> keeps (apart W cp protected N I) (os_Remove p) (fun _ => True).
Proof.
  intros Hp w r w' [Hn Hi] H. split; [|done].
  apply os_Remove_inv in H as (_ & I1 & _ & [(_ & _ & N1 & _)|(_ & N1 & _)]).
  - split.
    + intros q Hq Hqc. rewrite N1.
      rewrite lookup_delete_ne by (intros ->; destruct Hp; done). auto.
    + intros j g Hj Hg. rewrite I1, N1. split; [by apply (Hi j g)|].
      destruct (decide (p = cp)) as [->|Hoc];
        [by rewrite lookup_delete_eq|rewrite lookup_delete_ne by done].
      by apply (Hi j g).
  - by eapply apart_quiet; [| |split].
Qed.

(** [os.Create] of the checkpoint gives an inode that is not protected, or
    one that did not exist. *)
Lemma apart_Create :
  keeps (apart W cp protected N I) (os_Create cp) (fun j => ~ protected j \/ I !! j = None).
Proof.
  intros w r w' [Hn Hi] H.
  unfold os_Create, syscall, next_fate in H.
  assert (Hstay : (apart W cp protected N I) w' -> (forall a, r <> Ok a) ->
            (apart W cp protected N I) w' /\ forall a, r = Ok a -> ~ protected a \/ I !! a = None).
  { intros ? Hr. split; [done|]. intros a ->. by destruct (Hr a). }
  assert (Hsf : forall fs, (apart W cp protected N I) (set_fates fs w)) by (intros; by split).
  assert (Hold : forall (w0 : World) i g0,
            names w0 = names w -> names w !! cp = Some i -> inodes w !! i = Some g0 ->
            (apart W cp protected N I) (emit (EvCreate cp)
                   (set_inodes (<[i := set_content (Raw []) g0]> (inodes w)) w0)) /\
            (~ protected i \/ I !! i = None)).
  { intros w0 i g0 N0 Hc Hg0.
    assert (Hnp : ~ protected i \/ I !! i = None).
    { destruct (I !! i) as [g|] eqn:EI; [|by right]. left. intros Hp.
      destruct (Hi i g Hp EI) as [_ Hne]. by rewrite Hc in Hne. }
    split; [|done]. split; [intros; simpl; rewrite N0; auto|].
    intros j g Hj Hg. simpl. rewrite N0.
    destruct (Hi j g Hj Hg) as [Hij Hcj]. split; [|done].
    rewrite lookup_insert_ne; [done|]. intros ->. destruct Hnp; [done|congruence]. }
  assert (Hnew : forall (w0 : World),
            names w0 = names w -> names w !! cp = None ->
            (apart W cp protected N I) (emit (EvCreate cp)
                   (set_inodes (<[fresh_ino w := mkInode (Raw []) true false]> (inodes w))
                      (set_names (<[cp := fresh_ino w]> (names w)) w0))) /\
            (~ protected (fresh_ino w) \/ I !! fresh_ino w = None)).
  { intros w0 N0 Hc.
    assert (Hnp : forall j g, protected j -> I !! j = Some g -> j <> fresh_ino w).
    { intros j g Hj Hg ->. destruct (Hi _ g Hj Hg) as [Hij _].
      by rewrite fresh_ino_fresh in Hij. }
    split.
    - split.
      + intros q Hq Hqc. simpl. rewrite lookup_insert_ne by done. auto.
      + intros j g Hj Hg. simpl. destruct (Hi j g Hj Hg) as [Hij Hcj].
        rewrite lookup_insert_ne by (apply not_eq_sym; by eapply Hnp).
        split; [done|]. rewrite lookup_insert_eq. intros Heq.
        injection Heq as Heq. by eapply Hnp.
    - destruct (I !! fresh_ino w) as [g|] eqn:EI; [|by right]. left.
      intros Hp. by eapply Hnp. }
  assert (Hw0 : apart W cp protected N I w) by (by split).
  destruct (fates w) as [|[| |] fs]; simpl in H.
  3,4: simplify_eq; apply Hstay; [apply Hsf|done].
  all: destruct (names w !! cp) as [i|] eqn:Ec.
  all: try (destruct (inodes w !! i) as [g0|] eqn:Eg; [destruct (writable g0)|]).
  all: simplify_eq.
  all: try (apply Hstay; [first [exact Hw0|apply Hsf]|done]).
  - destruct (Hold w i g0 eq_refl eq_refl Eg) as [? ?]. split; [done|]. intros a Ha. by simplify_eq.
  - destruct (Hnew w eq_refl eq_refl) as [? ?]. split; [done|]. intros a Ha. by simplify_eq.
  - destruct (Hold (set_fates fs w) i g0 eq_refl eq_refl Eg) as [? ?].
    split; [done|]. intros a Ha. by simplify_eq.
  - destruct (Hnew (set_fates fs w) eq_refl eq_refl) as [? ?].
    split; [done|]. intros a Ha. by simplify_eq.
Qed.

Lemma apart_Encode j md :
  ~ protected j \/ I !! j = None -> keeps (apart W cp protected N I) (Encode j md) (fun _ => True).
Proof.
  intros Hj w r w' [Hn Hi] H. split; [|done].
  apply Encode_inv in H as (N1 & [(_ & g0 & Hg0 & I1)|(_ & I1 & _)]).
  - split; [intros; rewrite N1; auto|].
    intros j' g Hp Hg. rewrite N1, I1. destruct (Hi j' g Hp Hg) as [Hij Hcj].
    split; [|done]. rewrite lookup_insert_ne; [done|]. intros ->.
    destruct Hj; [done|congruence].
  - by eapply apart_quiet; [| |split].
Qed.

Lemma apart_saveMetadata md :
  OriginalPath md +:+ meta_suffix = cp -> keeps (apart W cp protected N I) (saveMetadata md) (fun _ => True).
Proof.
  intros Ho. unfold saveMetadata. rewrite Ho.
  eapply keeps_bind; [apply apart_Create|]. intros j Hj. by apply apart_Encode.
Qed.

Lemma apart_overwrite_passes n : forall i fd size md,
  OriginalPath md +:+ meta_suffix = cp -> ~ protected fd ->
  keeps (apart W cp protected N I) (ShredGo.overwrite_passes n i fd size md)
    (fun md' => TempPath md' = TempPath md /\ OriginalPath md' = OriginalPath md).
Proof.
  induction n as [|n IH]; intros i fd size md Ho Hfd; simpl; [by apply keeps_ret|].
  eapply keeps_bind; [apply apart_rand|]. intros bs _.
  eapply keeps_bind; [by apply apart_WriteAt0|]. intros _ _.
  eapply keeps_bind; [by apply apart_saveMetadata|]. intros _ _.
  eapply keeps_weaken; [by apply IH|]. done.
Qed.

Lemma apart_rename_rounds n : forall md,
  OriginalPath md +:+ meta_suffix = cp -> inside W (TempPath md) ->
  keeps (apart W cp protected N I) (rename_rounds n md)
    (fun md' => OriginalPath md' = OriginalPath md /\ inside W (TempPath md')).
Proof.
  induction n as [|n IH]; intros md Ho Ht; simpl; [by apply keeps_ret|].
  eapply keeps_bind.
  { unfold randomString. eapply keeps_bind; [apply apart_rand|].
    intros bs Hbs.
    apply (keeps_ret _ _ (fun s => exists bs, length bs = 12%nat /\ s = suffix_of bs)).
    by exists bs. }
  intros s (bs & Hbs & ->).
  assert (Hin : inside W (TempPath md +:+ "." +:+ suffix_of bs)).
  { apply inside_append; [done|]. by rewrite append_cons. }
  eapply keeps_bind; [apply apart_Rename; [done|done|]|].
  { rewrite <- Ho. by apply suffixed_ne_meta. }
  intros _ _. eapply keeps_bind; [by apply apart_saveMetadata|]. intros _ _.
  eapply keeps_weaken; [by apply IH|]. simpl. by intros md' [-> ?].
Qed.

Lemma apart_finish fd md :
  OriginalPath md +:+ meta_suffix = cp -> inside W (TempPath md) -> ~ protected fd ->
  keeps (apart W cp protected N I) (finish fd md) (fun _ => True).
Proof.
  intros Ho Ht Hfd. unfold finish.
  eapply keeps_bind; [by apply apart_Truncate0|]. intros _ _.
  eapply keeps_bind; [apply apart_Remove; by right|]. intros _ _.
  apply apart_Remove. by left.
Qed.

Lemma apart_after_guard passes info md fd :
  OriginalPath md +:+ meta_suffix = cp -> inside W (TempPath md) -> ~ protected fd ->
  keeps (apart W cp protected N I) (after_guard passes info md fd) (fun _ => True).
Proof.
  intros Ho Ht Hfd. unfold after_guard.
  eapply keeps_bind; [apply apart_Flock|]. intros _ _.
  eapply keeps_bind; [by apply apart_overwrite_passes|]. intros md1 [HT1 HO1].
  eapply keeps_bind; [apply apart_rename_rounds; congruence|]. intros md2 [HO2 HT2].
  apply apart_finish; [congruence|done|done].
Qed.

Lemma apart_rename_once path md0 :
  cp = path +:+ meta_suffix -> OriginalPath md0 = path ->
  W = working_name path md0 ->
  keeps (apart W cp protected N I) (rename_once path md0) (fun md => md = started path md0).
Proof.
  intros Hcp Ho HW. unfold rename_once, started.
  unfold working_name in HW. case_decide as Ht; [|by apply keeps_ret].
  eapply keeps_bind; [apply apart_Rename|].
  { left. congruence. }
  { right. exists ".tmp". split; [done|]. by rewrite HW. }
  { rewrite Hcp. apply tmp_ne_meta. }
  intros _ _. eapply keeps_bind; [apply apart_saveMetadata; simpl; congruence|].
  intros _ _. by apply keeps_ret.
Qed.

End Apart.

(** A run of [Shred] of src/shred.go that got as far as loading the record
    [md0] keeps the rest of the disk apart; a run that stopped before has
    changed nothing. *)
Lemma ShredGo_apart path passes w r w' :
  wf_checkpoint w path ->
  ShredGo.Shred path passes w = (r, w') ->
  (names w' = names w /\ inodes w' = inodes w /\ forall a, r <> Ok a) \/
  exists info w1 md0 w2,
    os_Stat path w = (Ok info, w1) /\ load_or_init path w1 = (Ok md0, w2) /\
    loaded w path md0 /\
    apart (working_name path md0) (path +:+ meta_suffix)
      (bystander w (working_name path md0) (path +:+ meta_suffix))
      (names w) (inodes w) w'.
Proof.
  intros Hwf H. unfold ShredGo.Shred in H.
  apply bind_inv in H as [(info & w1 & H1 & H)|(Hr & r0 & H1 & _)].
  2:{ apply os_Stat_inv in H1 as ((N&I&_)&_). left. done. }
  pose proof (os_Stat_inv _ _ _ _ H1) as ((N1&I1&L1&R1&C1)&_).
  destruct (size_limit <? info).
  { unfold fail in H. simplify_eq. left. done. }
  apply bind_inv in H as [(md0 & w2 & H2 & H)|(Hr & r0 & H2 & _)].
  2:{ apply load_or_init_inv in H2 as ((N&I&_)&_). left.
      split; [congruence|]. split; [congruence|done]. }
  pose proof (load_or_init_inv _ _ _ _ H2) as ((N2&I2&L2&R2&C2)&_&_&HL).
  specialize (HL _ eq_refl).
  assert (Hld : loaded w path md0).
  { destruct HL as [->|(i&f&Hf&Hc)]; [by left|right].
    unfold file_at in *. rewrite N1, I1 in Hf. eauto. }
  destruct (loaded_wf _ _ _ Hwf Hld) as [Ho Ht].
  right. exists info, w1, md0, w2. split; [done|]. split; [done|]. split; [done|].
  set (W := working_name path md0). set (cp := path +:+ meta_suffix).
  set (P := bystander w W cp).
  assert (Ha2 : apart W cp P (names w) (inodes w) w2).
  { split; [intros; congruence|]. intros j g [HjW Hjc] Hg.
    rewrite I2, I1, N2, N1. done. }
  assert (Hos : OriginalPath (started path md0) +:+ meta_suffix = cp).
  { unfold started. case_decide; simpl; by rewrite Ho. }
  assert (Hin : inside W (TempPath (started path md0))).
  { unfold W, working_name, started. case_decide; simpl; [right; by exists ".tmp"|by left]. }
  apply bind_inv in H as [(md & w3 & H3 & H)|(Hr & r0 & H3 & _)].
  2:{ by destruct (apart_rename_once W cp P (names w) (inodes w) path md0 eq_refl Ho eq_refl
                     _ _ _ Ha2 H3). }
  destruct (apart_rename_once W cp P (names w) (inodes w) path md0 eq_refl Ho eq_refl
              _ _ _ Ha2 H3) as [Ha3 Hmd].
  specialize (Hmd _ eq_refl). subst md.
  pose proof (rename_once_working _ _ _ _ _ H3) as Hwork.
  rewrite N2, N1 in Hwork. fold W in Hwork.
  apply bind_inv in H as [(busy & w4 & H4 & H)|(Hr & r0 & H4 & _)].
  2:{ by destruct (apart_isFileLocked W cp P (names w) (inodes w) _ _ _ _ Ha3 H4). }
  destruct (apart_isFileLocked W cp P (names w) (inodes w) _ _ _ _ Ha3 H4) as [Ha4 _].
  assert (N4 : names w4 = names w3).
  { apply isFileLocked_inv in H4 as [(? & _)|(b & _ & N & _)]; done. }
  destruct busy. { unfold fail in H. by simplify_eq. }
  apply bind_inv in H as [(tempFile & w5 & H5 & H)|(Hr & r0 & H5 & _)].
  2:{ by destruct (apart_OpenFile W cp P (names w) (inodes w) _ _ _ _ Ha4 H5). }
  destruct (apart_OpenFile W cp P (names w) (inodes w) _ _ _ _ Ha4 H5) as [Ha5 _].
  apply os_OpenFile_inv in H5 as (_ & Hopen). specialize (Hopen _ eq_refl).
  rewrite N4, Hwork in Hopen.
  assert (Hnp : ~ P tempFile) by (intros [HjW _]; done).
  by destruct (apart_after_guard W cp P (names w) (inodes w) passes info
                 (started path md0) tempFile Hos Hin Hnp _ _ _ Ha5 H).
Qed.

(** ** A checkpoint that is already there *)

Lemma os_Stat_fates p w info w1 :
  os_Stat p w = (Ok info, w1) -> Eio ∉ fates w -> Eio ∉ fates w1.
Proof.
  unfold os_Stat, syscall, next_fate. intros H Hf.
  destruct (fates w) as [|[| |] fs] eqn:E; simpl in H; try done.
  - destruct (file_at w p) as [[]|]; simplify_eq. by rewrite E.
  - destruct (file_at (set_fates fs w) p) as [[]|]; simplify_eq. simpl.
    intros Hin. apply Hf. by right.
Qed.

(** When no I/O error is injected, [load_or_init] returns the record that
    the checkpoint file holds. *)
Lemma load_or_init_record path w md0 w' i f m :
  load_or_init path w = (Ok md0, w') ->
  file_at w (path +:+ meta_suffix) = Some (i, f) -> content f = Json m ->
  Eio ∉ fates w -> md0 = m.
Proof.
  intros H Hfile Hc Hf. destruct (file_at_inv _ _ _ _ Hfile) as [Hn Hi].
  unfold load_or_init, loadMetadata, catch, bind, ret, os_Open, Decode, syscall,
    next_fate, file_at in H.
  destruct (fates w) as [|[| |] fs] eqn:E; simpl in H; try done.
  - rewrite Hn, Hi, E in H. simpl in H. rewrite Hi, Hc in H. by simplify_eq.
  - rewrite Hn, Hi in H. simpl in H.
    destruct fs as [|[| |] fs']; simpl in H; try done.
    + rewrite Hi, Hc in H. by simplify_eq.
    + rewrite Hi, Hc in H. by simplify_eq.
    + exfalso. apply Hf. right. left.
  - exfalso. apply Hf. left.
Qed.

(** ** Runs that nothing disturbs: every step returns *)









Section ReturnsWorking.

Variable N : gmap string nat.

Variable I : gmap nat Inode.

Variable fd jc : nat.

Variable f : Inode.

Variable cp : string.

Hypothesis Hfdjc : fd <> jc.






End ReturnsWorking.











(** ** The temporary-file [Shred] when nothing interferes *)

Lemma write_passes_calm n t bs : forall w g,
  fates w = [] -> inodes w !! t = Some g ->
  exists w' g', ShredTemp.write_passes n t bs w = (Ok tt, w') /\
    fates w' = [] /\ names w' = names w /\ inodes w' !! t = Some g'.
Proof.
  induction n as [|n IH]; intros w g Hf Hg; simpl.
  { by exists w, g. }
  unfold bind, WriteAt0. rewrite syscall_calm by done. rewrite Hg.
  unfold Sync. rewrite syscall_calm by done. cbn [inodes emit set_inodes].
  rewrite lookup_insert_eq.
  edestruct (IH (emit (EvWrite t bs)
                   (set_inodes (<[t := set_content (Raw (overwrite bs (content_bytes (content g)))) g]>
                                  (inodes w)) w))) as (w' & g' & H & Hf' & N' & I').
  { done. }
  { cbn [inodes emit set_inodes]. apply lookup_insert_eq. }
  exists w', g'. by rewrite H.
Qed.

Lemma ShredTemp_returns (path : string) (passes : Z) (w : World) (fd : nat) (f : Inode) :
  file_at w path = Some (fd, f) -> fates w = [] ->
  writable f = true -> locked f = false ->
  exists w', ShredTemp.Shred path passes w = (Ok tt, w').
Proof.
  intros Hfile Hf Hwr Hlk. destruct (file_at_inv _ _ _ _ Hfile) as [Hn Hi].
  unfold ShredTemp.Shred.
  rewrite (bind_Ok _ _ _ fd w) by (by rewrite (os_OpenFile_calm _ _ _ _ Hf Hfile), Hwr).
  rewrite (bind_Ok _ _ _ tt w) by (by rewrite (Flock_calm _ _ _ Hf Hi), Hlk).
  rewrite (bind_Ok _ _ _ (inode_size f) w)
    by (unfold File_Stat; rewrite syscall_calm by done; by rewrite Hi).
  cbv zeta. unfold bind at 1. unfold rand_Read at 1. rewrite syscall_calm by done.
  set (bs := draw (rng w) (cursor w) (Z.to_nat (inode_size f))).
  set (w1 := emit (EvRand bs) _).
  assert (Hf1 : fates w1 = []) by done.
  unfold bind at 1. unfold TempFile at 1. rewrite syscall_calm by done.
  set (name := temp_name w1). set (t := fresh_ino w1).
  set (w2 := emit (EvCreate name) _).
  assert (Hname : names w !! name = None) by apply (temp_name_fresh w1).
  assert (Hnp : name <> path) by (intros ->; by rewrite Hn in Hname).
  destruct (write_passes_calm (Z.to_nat passes) t bs w2 (mkInode (Raw []) true false))
    as (w3 & g & H3 & Hf3 & N3 & I3).
  { done. }
  { subst w2. cbn [inodes emit set_inodes set_names]. apply lookup_insert_eq. }
  assert (Hn3 : names w3 !! name = Some t).
  { rewrite N3. subst w2. cbn [names emit set_inodes set_names]. apply lookup_insert_eq. }
  set (w4 := emit (EvRename name path) (set_names (<[path := t]> (delete name (names w3))) w3)).
  set (w5 := emit (EvRemove path) (set_names (delete path (names w4)) w4)).
  exists w5. unfold defer.
  assert (Hbody : (let* _ := ShredTemp.write_passes (Z.to_nat passes) t bs in
                   let* _ := Sync t in
                   let* _ := os_Rename name path in
                   os_Remove path) w2 = (Ok tt, w5)).
  { rewrite (bind_Ok _ _ _ _ _ H3).
    rewrite (bind_Ok _ _ _ tt w3)
      by (unfold Sync; rewrite syscall_calm by done; by rewrite I3).
    rewrite (bind_Ok _ _ _ _ _ (os_Rename_calm _ _ _ _ Hf3 Hn3)). fold w4.
    unfold os_Remove. rewrite syscall_calm by done.
    subst w4. cbn [names emit set_names]. by rewrite lookup_insert_eq. }
  rewrite Hbody.
  unfold os_Remove. rewrite syscall_calm by done.
  assert (Hgone : names w5 !! name = None).
  { subst w5 w4. cbn [names emit set_names].
    rewrite lookup_delete_ne by done. rewrite lookup_insert_ne by done.
    apply lookup_delete_eq. }
  by rewrite Hgone.
Qed.

(** * The claims *)

(** Claim C1 (idempotent resume) does not hold of the code.  A 3-byte file
    "f", two passes: the uninterrupted run ends with no directory entry left.
    Killed right after the first checkpoint write, the disk holds "f.tmp" and
    "f.shredmeta"; the re-invocation with the same arguments fails in its
    first call, [os.Stat] of the original path, and leaves both in place.
    Both variants of [Shred] behave so. *)
Theorem resume_fails :
  let w0 := disk1 "f" [1; 2; 3] in
  let cp := mkMeta 0 "f.tmp" "f" in
  (let '(r, w) := ShredGo.Shred "f" 2 (w0 []) in r = Ok tt /\ entries w = []) /\
  (let '(r, w) := ShredGo.Shred "f" 2 (w0 killed_after_checkpoint) in
   r = Killed /\ last (log w) = Some (EvSave cp) /\
   let '(r', w') := reinvoke (ShredGo.Shred "f" 2) w in
   r' = Fail ENOENT /\
   entries w' = [("f.shredmeta", 1%nat); ("f.tmp", 0%nat)] /\
   inodes w' !! 1%nat = Some (mkInode (Json cp) true false) /\ log w' = log w) /\
  (let '(r, w) := Part000.Shred "f" 2 (w0 []) in r = Ok tt /\ entries w = []) /\
  (let '(r, w) := Part000.Shred "f" 2 (w0 killed_after_checkpoint') in
   r = Killed /\ last (log w) = Some (EvSave cp) /\
   let '(r', w') := reinvoke (Part000.Shred "f" 2) w in
   r' = Fail ENOENT /\
   entries w' = [("f.shredmeta", 1%nat); ("f.tmp", 0%nat)] /\
   inodes w' !! 1%nat = Some (mkInode (Json cp) true false) /\ log w' = log w).
Proof. vm_compute. repeat split; reflexivity. Qed.

(** Claim C2 (size bound).  When [os.Stat] finds the file and reports size
    [S], each variant of [Shred] returns the size error exactly when
    [S > 1 GiB], and then the disk is untouched: no rename, write, delete or
    checkpoint creation took place. *)
Theorem size_bound (path : string) (passes S : Z) (w w1 : World) :
  os_Stat path w = (Ok S, w1) ->
  (forall r w', ShredGo.Shred path passes w = (r, w') ->
     (r = Fail SizeExceeded <-> 1024 * 1024 * 1024 < S) /\
     (1024 * 1024 * 1024 < S -> untouched w w')) /\
  (forall r w', Part000.Shred path passes w = (r, w') ->
     (r = Fail SizeExceeded <-> 1024 * 1024 * 1024 < S) /\
     (1024 * 1024 * 1024 < S -> untouched w w')).
Proof.
  intros HS. pose proof (os_Stat_inv _ _ _ _ HS) as ((N&I&L&_)&_).
  change (1024 * 1024 * 1024) with size_limit.
  split; intros r w' H.
  - unfold ShredGo.Shred in H. unfold bind at 1 in H. rewrite HS in H.
    destruct (size_limit <? S) eqn:E.
    + unfold fail in H. simplify_eq. apply Z.ltb_lt in E. by repeat split.
    + apply Z.ltb_ge in E. split; [|lia]. split; [|lia].
      intros ->. by eapply never_size_ShredGo_rest in H.
  - unfold Part000.Shred in H. unfold bind at 1 in H. rewrite HS in H.
    destruct (size_limit <? S) eqn:E.
    + unfold fail in H. simplify_eq. apply Z.ltb_lt in E. by repeat split.
    + apply Z.ltb_ge in E. split; [|lia]. split; [|lia].
      intros ->. by eapply never_size_Part000_rest in H.
Qed.

Lemma size_bound_witness :
  (forall r w', ShredGo.Shred "f" 3 (disk1 "f" [1; 2; 3] []) = (r, w') ->
     (r = Fail SizeExceeded <-> 1024 * 1024 * 1024 < 3) /\
     (1024 * 1024 * 1024 < 3 -> untouched (disk1 "f" [1; 2; 3] []) w')) /\
  (forall r w', Part000.Shred "f" 3 (disk1 "f" [1; 2; 3] []) = (r, w') ->
     (r = Fail SizeExceeded <-> 1024 * 1024 * 1024 < 3) /\
     (1024 * 1024 * 1024 < 3 -> untouched (disk1 "f" [1; 2; 3] []) w')).
Proof.
  apply (size_bound "f" 3 3 (disk1 "f" [1; 2; 3] []) (disk1 "f" [1; 2; 3] [])).
  vm_compute. reflexivity.
Defined.









(** Claim C6 (obfuscation and cleanup).  A run of [Shred] of src/shred.go
    that succeeds has exactly these events: the first rename with its
    checkpoint (fresh job only), the contention check, all overwrite passes,
    then ten rounds of (twelve random bytes, rename of the working file to
    its name plus a dot and the suffix made of them, checkpoint with the new
    name), then the truncation of the file, the removal of the checkpoint and
    the removal of the file under its last name, in this order. *)
Theorem cleanup_sequence (path : string) (passes : Z) (w w' : World) :
  ShredGo.Shred path passes w = (Ok tt, w') ->
  exists md0 fd,
    loaded w path md0 /\
    names w !! working_name path md0 = Some fd /\
    let md := started path md0 in
    let n := Z.to_nat (passes - Pass md0) in
    let size := Z.to_nat (size_at w path) in
    let md1 := overwrite_result n (Pass md0) md in
    let c1 := (cursor w + n * size)%nat in
    let rounds := rename_script 10 md1 (rng w) c1 in
    let md2 := rename_result 10 md1 (rng w) c1 in
    log w' = log w ++
      (start_script path md0 ++ [EvGuard (TempPath md) false] ++
       overwrite_script false n (Pass md0) fd size md (rng w) (cursor w)) ++
      rounds ++
      [EvTruncate fd; EvRemove (OriginalPath md0 +:+ meta_suffix);
       EvRemove (TempPath md2)] /\
    Forall suffix_rename rounds /\
    length (filter (fun e => is_rename e = true)
              rounds) = 10%nat.
Proof.
  intros H. destruct (ShredGo_trace _ _ _ _ _ H) as (md0 & D & Hld & HL & Hs).
  exists md0. unfold run_shape, body_script in Hs. cbv beta iota zeta in Hs.
  rewrite ?app_nil_l, ?Pass_started in Hs.
  destruct Hs as [[_ Hr]|[(_ & _ & ?)|(fd & D' & -> & Hfd & _ & HO)]];
    [by destruct (Hr tt)|done|].
  specialize (HO eq_refl). exists fd. split; [done|]. split.
  { apply Hfd. rewrite HO. unfold finish_script. intros Heq.
    apply app_eq_nil in Heq as [_ Heq]. by apply app_eq_nil in Heq as [_ Heq]. }
  cbv zeta. split; [|apply rename_script_rounds].
  rewrite HL, HO. unfold finish_script.
  destruct (OriginalPath_rename_result 10
    (overwrite_result (Z.to_nat (passes - Pass md0)) (Pass md0) (started path md0))
    (rng w) (cursor w + Z.to_nat (passes - Pass md0) * Z.to_nat (size_at w path))%nat)
    as [-> _].
  destruct (TempPath_overwrite_result (Z.to_nat (passes - Pass md0)) (Pass md0)
    (started path md0)) as (_ & -> & _).
  assert (OriginalPath (started path md0) = OriginalPath md0) as ->
    by (unfold started; by case_decide).
  by rewrite <- !app_assoc.
Qed.

Lemma cleanup_sequence_witness :
  exists md0 fd,
    loaded calm_disk "f" md0 /\
    names calm_disk !! working_name "f" md0 = Some fd /\
    let md := started "f" md0 in
    let n := Z.to_nat (2 - Pass md0) in
    let size := Z.to_nat (size_at calm_disk "f") in
    let md1 := overwrite_result n (Pass md0) md in
    let c1 := (cursor calm_disk + n * size)%nat in
    let rounds := rename_script 10 md1 (rng calm_disk) c1 in
    let md2 := rename_result 10 md1 (rng calm_disk) c1 in
    log (ShredGo.Shred "f" 2 calm_disk).2
    = log calm_disk ++
      (start_script "f" md0 ++ [EvGuard (TempPath md) false] ++
       overwrite_script false n (Pass md0) fd size md
         (rng calm_disk) (cursor calm_disk)) ++
      rounds ++
      [EvTruncate fd; EvRemove (OriginalPath md0 +:+ meta_suffix);
       EvRemove (TempPath md2)] /\
    Forall suffix_rename rounds /\
    length (filter (fun e => is_rename e = true)
              rounds) = 10%nat.
Proof.
  apply (cleanup_sequence "f" 2 calm_disk).
  vm_compute. reflexivity.
Defined.

(** Claim C7 as stated fails: 256 is not a multiple of 62, so the reduction
    [b % 62] sends five byte values to "a" and four to "z". *)
Lemma suffix_not_uniform : ~ uniform_suffix.
Proof.
  intros H. specialize (H "a"%char "z"%char).
  assert (preimages "a" = 5%nat) as Ha by (vm_compute; reflexivity).
  assert (preimages "z" = 4%nat) as Hz by (vm_compute; reflexivity).
  rewrite Ha, Hz in H. discriminate H.
  - apply (bool_decide_unpack _). vm_compute. exact I.
  - apply (bool_decide_unpack _). vm_compute. exact I.
Qed.

(** Claim C7, amended.  Every character of the string that [randomString]
    returns is [pick] of one byte of the entropy source, that is
    [charset[b % 62]], and [pick] sends five of the 256 byte values to each
    of the first eight characters of the alphabet ("a" to "h") and four to
    each of the other fifty-four. *)
Theorem suffix_distribution :
  String.length charset = 62%nat /\
  NoDup (list_ascii_of_string charset) /\
  (forall n w s w', randomString n w = (Ok s, w') ->
     exists bs, length bs = n /\ list_ascii_of_string s = map pick bs) /\
  map preimages (list_ascii_of_string charset) = replicate 8 5%nat ++ replicate 54 4%nat.
Proof.
  split; [reflexivity|]. split.
  - apply (bool_decide_unpack _). vm_compute. exact I.
  - split; [|vm_compute; reflexivity].
    intros n w s w' H.
    destruct (emits_randomString _ _ _ _ H) as (D & _ & _ & _ & Hs).
    destruct (Hs _ eq_refl) as (_ & -> & _).
    exists (draw (rng w) (cursor w) n). split; [apply length_draw|].
    unfold suffix_of. apply list_ascii_of_string_of_list_ascii.
Qed.

Lemma suffix_distribution_witness :
  String.length charset = 62%nat /\
  NoDup (list_ascii_of_string charset) /\
  (exists bs, length bs = 12%nat /\
     list_ascii_of_string (string_of_list_ascii (map pick (draw zero_rng 0 12)))
     = map pick bs) /\
  map preimages (list_ascii_of_string charset) = replicate 8 5%nat ++ replicate 54 4%nat.
Proof.
  destruct suffix_distribution as (H1 & H2 & H3 & H4).
  split; [exact H1|]. split; [exact H2|]. split; [|exact H4].
  apply (H3 12%nat calm_disk _ (randomString 12 calm_disk).2).
  vm_compute. reflexivity.
Defined.

(** Claim C8 (non-existent path).  When [path] names no file and the
    environment lets [os.Stat] run, [Shred] returns the not-found error of
    that first call; the world it leaves differs from the initial one only in
    the failure schedule, so no checkpoint is created and nothing on disk
    changes. *)
Theorem missing_path (path : string) (passes : Z) (w : World) :
  file_at w path = None ->
  head (fates w) = None \/ head (fates w) = Some Proceed ->
  ShredGo.Shred path passes w = (Fail ENOENT, set_fates (tail (fates w)) w) /\
  untouched w (set_fates (tail (fates w)) w) /\
  file_at (set_fates (tail (fates w)) w) (path +:+ meta_suffix)
    = file_at w (path +:+ meta_suffix).
Proof.
  intros Hf Hh. split; [by apply stat_missing|by repeat split].
Qed.

Lemma missing_path_witness :
  ShredGo.Shred "nonexistentfile" 3 (disk1 "f" [1; 2; 3] [])
    = (Fail ENOENT, set_fates (tail (fates (disk1 "f" [1; 2; 3] []))) (disk1 "f" [1; 2; 3] [])) /\
  untouched (disk1 "f" [1; 2; 3] [])
    (set_fates (tail (fates (disk1 "f" [1; 2; 3] []))) (disk1 "f" [1; 2; 3] [])) /\
  file_at (set_fates (tail (fates (disk1 "f" [1; 2; 3] []))) (disk1 "f" [1; 2; 3] []))
    ("nonexistentfile" +:+ meta_suffix)
    = file_at (disk1 "f" [1; 2; 3] []) ("nonexistentfile" +:+ meta_suffix).
Proof.
  apply (missing_path "nonexistentfile" 3 (disk1 "f" [1; 2; 3] [])).
  - vm_compute. reflexivity.
  - left. reflexivity.
Defined.

(** Claim C9.  For a path that cannot be opened for writing (no such file,
    or no write permission), [isFileLocked] of src/shred.go returns false,
    unless the process is killed during the call. *)
Theorem isFileLocked_unopenable (p : string) (w : World) :
  unopenable w p ->
  head (fates w) <> Some Kill ->
  exists w', ShredGo.isFileLocked p w = (Ok false, w').
Proof.
  unfold unopenable, ShredGo.isFileLocked, catch, bind, ret, os_OpenFile,
    syscall, next_fate.
  intros Hu Hk. destruct (fates w) as [|[| |] fs]; simpl in *; try done.
  - destruct (file_at w p) as [[i f]|]; [rewrite Hu|]; eauto.
  - destruct (file_at (set_fates fs w) p) as [[i f]|] eqn:E; eauto.
    unfold file_at in *. simpl in *. rewrite E in Hu. rewrite Hu. eauto.
  - eauto.
Qed.

Lemma isFileLocked_unopenable_witness :
  exists w', ShredGo.isFileLocked "f" (readonly1 "f") = (Ok false, w').
Proof.
  apply (isFileLocked_unopenable "f" (readonly1 "f")).
  - vm_compute. reflexivity.
  - vm_compute. discriminate.
Defined.

(** Claim C10 as stated fails: when the last step, the removal of the file,
    fails, [Shred] returns that error after checkpoints were written, and the
    checkpoint is gone. *)
Lemma checkpoint_lost :
  let '(r, w') := ShredGo.Shred "f" 1 (disk1 "f" [1; 2; 3] fails_last_remove) in
  r = Fail EIO /\
  EvSave (mkMeta 0 "f.tmp" "f") ∈ log w' /\
  last (log w') = Some (EvRemove "f.shredmeta") /\
  names w' !! "f.shredmeta" = None /\
  length (entries w') = 1%nat.
Proof.
  vm_compute. split; [reflexivity|]. split; [|by repeat split].
  do 2 right. left.
Qed.

(** Claim C10, amended.  Take a run of [Shred] of src/shred.go on a disk
    whose checkpoint for [path], if there is one, is well formed.  However
    the run ends, once it has written a checkpoint the checkpoint file exists
    in the final directory, unless the run itself has removed it.  And it
    removes it only after the contention check, all the overwrite passes, the
    ten rename rounds and the truncation; the one step left after that is the
    removal of the file, so an error return without checkpoint is the failure
    of that removal. *)
Theorem checkpoint_survives (path : string) (passes : Z) (w : World)
    (r : Res unit) (w' : World) :
  wf_checkpoint w path ->
  ShredGo.Shred path passes w = (r, w') ->
  exists md0 D,
    loaded w path md0 /\ log w' = log w ++ D /\
    ((exists md, EvSave md ∈ D) ->
       is_Some (names w' !! (path +:+ meta_suffix)) \/
       EvRemove (path +:+ meta_suffix) ∈ D) /\
    (EvRemove (path +:+ meta_suffix) ∈ D ->
       exists fd tail,
         let md := started path md0 in
         let n := Z.to_nat (passes - Pass md0) in
         let size := Z.to_nat (size_at w path) in
         let md1 := overwrite_result n (Pass md0) md in
         let c1 := (cursor w + n * size)%nat in
         D = start_script path md0 ++ [EvGuard (TempPath md) false] ++
             overwrite_script false n (Pass md0) fd size md (rng w) (cursor w) ++
             rename_script 10 md1 (rng w) c1 ++
             [EvTruncate fd; EvRemove (path +:+ meta_suffix)] ++ tail /\
         tail `prefix_of` [EvRemove (TempPath (rename_result 10 md1 (rng w) c1))]).
Proof.
  intros Hwf H. pose proof (ShredGo_alive _ _ _ _ _ Hwf H) as [_ Ha].
  destruct (ShredGo_trace _ _ _ _ _ H) as (md0 & D & Hld & HL & Hs).
  exists md0, D. split; [done|]. split; [done|].
  rewrite HL, drop_app_length in Ha. split.
  - intros (md & Hmd). destruct Ha as [Ha|[Ha|Ha]]; [by left| |by right].
    eapply Forall_forall in Ha; [|done]. done.
  - intros Hin. destruct (loaded_wf _ _ _ Hwf Hld) as [Ho _].
    unfold run_shape, body_script in Hs. cbv beta iota zeta in Hs.
    rewrite ?app_nil_l, ?Pass_started in Hs.
    destruct Hs as [[HP _]|[(_ & -> & _)|(fd & D' & -> & _ & HP & _)]].
    + exfalso. eapply no_remove_elem; [|done].
      eapply no_remove_prefix; [done|apply no_remove_start].
    + exfalso. eapply no_remove_elem; [|done].
      apply Forall_app. split; [apply no_remove_start|by repeat constructor].
    + set (n := Z.to_nat (passes - Pass md0)) in *.
      set (size := Z.to_nat (size_at w path)) in *.
      set (md1 := overwrite_result n (Pass md0) (started path md0)) in *.
      set (c1 := (cursor w + n * size)%nat) in *.
      set (md2 := rename_result 10 md1 (rng w) c1) in *.
      assert (Hcp : OriginalPath md2 +:+ meta_suffix = path +:+ meta_suffix).
      { subst md2 md1.
        destruct (OriginalPath_rename_result 10
          (overwrite_result n (Pass md0) (started path md0)) (rng w) c1) as [-> _].
        destruct (TempPath_overwrite_result n (Pass md0) (started path md0)) as (_ & -> & _).
        unfold started. case_decide; simpl; by rewrite Ho. }
      assert (Hin' : EvRemove (path +:+ meta_suffix) ∈ D').
      { apply elem_of_app in Hin as [Hin|Hin];
          [exfalso; eapply no_remove_elem; [apply no_remove_start|done]|].
        apply elem_of_cons in Hin as [Hin|Hin]; [discriminate|done]. }
      unfold finish_script in HP. rewrite Hcp in HP.
      change [EvTruncate fd; EvRemove (path +:+ meta_suffix); EvRemove (TempPath md2)]
        with ([EvTruncate fd] ++ [EvRemove (path +:+ meta_suffix); EvRemove (TempPath md2)]) in HP.
      rewrite !app_assoc in HP.
      apply prefix_app_cases in HP as [HP|(D2 & -> & HP)].
      * exfalso. eapply no_remove_elem; [|done].
        eapply no_remove_prefix; [done|].
        apply Forall_app. split; [|by repeat constructor].
        apply Forall_app. split; [apply no_remove_overwrite|apply no_remove_rename].
      * destruct D2 as [|x D2].
        { exfalso. rewrite app_nil_r in Hin'. eapply no_remove_elem; [|done].
          apply Forall_app. split; [|by repeat constructor].
          apply Forall_app. split; [apply no_remove_overwrite|apply no_remove_rename]. }
        pose proof (prefix_cons_inv_1 _ _ _ _ HP) as ->.
        apply prefix_cons_inv_2 in HP.
        exists fd, D2. cbv zeta. split; [|done].
        by rewrite <- !app_assoc.
Qed.

Lemma checkpoint_survives_witness :
  exists md0 D,
    loaded rough_disk "f" md0 /\
    log (ShredGo.Shred "f" 1 rough_disk).2
      = log rough_disk ++ D /\
    ((exists md, EvSave md ∈ D) ->
       is_Some (names (ShredGo.Shred "f" 1 rough_disk).2
                  !! ("f" +:+ meta_suffix)) \/
       EvRemove ("f" +:+ meta_suffix) ∈ D) /\
    (EvRemove ("f" +:+ meta_suffix) ∈ D ->
       exists fd tail,
         let md := started "f" md0 in
         let n := Z.to_nat (1 - Pass md0) in
         let size := Z.to_nat (size_at rough_disk "f") in
         let md1 := overwrite_result n (Pass md0) md in
         let c1 := (cursor rough_disk + n * size)%nat in
         D = start_script "f" md0 ++ [EvGuard (TempPath md) false] ++
             overwrite_script false n (Pass md0) fd size md
               (rng rough_disk)
               (cursor rough_disk) ++
             rename_script 10 md1 (rng rough_disk) c1 ++
             [EvTruncate fd; EvRemove ("f" +:+ meta_suffix)] ++ tail /\
         tail `prefix_of`
           [EvRemove (TempPath (rename_result 10 md1
                                  (rng rough_disk) c1))]).
Proof.
  apply (checkpoint_survives "f" 1 rough_disk
           (ShredGo.Shred "f" 1 rough_disk).1).
  - intros i f m Hf. vm_compute in Hf. discriminate Hf.
  - vm_compute. reflexivity.
Defined.

(** * Further properties of the code *)





(** Property X3.  The checkpoint is not written atomically.  When
    [saveMetadata] stops after [os.Create] has run (the encoding fails, or
    the process is killed in between), the checkpoint file is left empty,
    whatever it held before; the next [Shred] then finds no record in it and
    starts from the fresh record [{0, "", path}]. *)
Theorem torn_checkpoint (md : ShredMetadata) (w : World) (r : Res unit) (w1 : World) :
  saveMetadata md w = (r, w1) ->
  (forall a, r <> Ok a) ->
  log w1 <> log w ->
  let cp := OriginalPath md +:+ meta_suffix in
  (r = Fail EIO \/ r = Killed) /\
  (exists i f, file_at w1 cp = Some (i, f) /\ content f = Raw []) /\
  loadMetadata (OriginalPath md) (set_fates [] w1)
    = (Ok (zero_metadata, Some EDECODE), set_fates [] w1) /\
  load_or_init (OriginalPath md) (set_fates [] w1)
    = (Ok (mkMeta 0 "" (OriginalPath md)), set_fates [] w1).
Proof.
  intros H Hr Hlog cp. unfold saveMetadata in H. fold cp in H.
  apply bind_inv in H as [(j & w0 & H1 & H)|(_ & r0 & H1 & Hr0 & _)].
  2:{ apply os_Create_quiet in H1 as (_ & _ & L & _); [|done]. by destruct Hlog. }
  apply os_Create_Ok in H1 as (Hn & f & Hi & Hc & L0).
  apply Encode_inv in H as (N & [(-> & _)|(_ & I & L & Hres)]); [by destruct (Hr tt)|].
  assert (Hfile : file_at w1 cp = Some (j, f)).
  { unfold file_at. by rewrite N, Hn, I, Hi. }
  assert (Hfile' : file_at (set_fates [] w1) cp = Some (j, f)) by done.
  assert (Hl : loadMetadata (OriginalPath md) (set_fates [] w1)
               = (Ok (zero_metadata, Some EDECODE), set_fates [] w1)).
  { rewrite (loadMetadata_calm _ _ j f); [by rewrite Hc|done|done]. }
  split; [apply Hres; by eexists|]. split; [eauto|]. split; [done|].
  unfold load_or_init. by rewrite (bind_Ok _ _ _ _ _ Hl).
Qed.

Lemma torn_checkpoint_witness :
  let md := mkMeta 1 "f.tmp" "f" in
  let w := disk1 "f" [1; 2; 3] fails_encode in
  let r := (saveMetadata md w).1 in
  let w1 := (saveMetadata md w).2 in
  let cp := "f" +:+ meta_suffix in
  (r = Fail EIO \/ r = Killed) /\
  (exists i f, file_at w1 cp = Some (i, f) /\ content f = Raw []) /\
  loadMetadata "f" (set_fates [] w1)
    = (Ok (zero_metadata, Some EDECODE), set_fates [] w1) /\
  load_or_init "f" (set_fates [] w1)
    = (Ok (mkMeta 0 "" "f"), set_fates [] w1).
Proof.
  apply (torn_checkpoint (mkMeta 1 "f.tmp" "f") (disk1 "f" [1; 2; 3] fails_encode)).
  - apply surjective_pairing.
  - intros a. vm_compute. discriminate.
  - vm_compute. discriminate.
Defined.

(** Property X4.  What [isFileLocked] of src/shred.go answers.  It changes
    nothing on disk and always returns an answer.  The answer is true only
    for a file that can be opened for writing, and then when another process
    holds the lock or when the lock call fails for any other reason.  When
    the environment does not interfere, the answer is true exactly for a
    file that can be opened for writing and is locked. *)
Theorem isFileLocked_answer (p : string) (w : World) (r : Res bool) (w' : World) :
  ShredGo.isFileLocked p w = (r, w') ->
  names w' = names w /\ inodes w' = inodes w /\ r <> Hang /\ (forall e, r <> Fail e) /\
  (r = Ok true ->
   exists i f, file_at w p = Some (i, f) /\ writable f = true /\
     (locked f = true \/ Eio ∈ fates w)) /\
  (fates w = [] ->
   r = Ok (match file_at w p with
           | Some (_, f) => writable f && locked f
           | None => false
           end)).
Proof.
  intros H.
  pose proof (isFileLocked_inv _ _ _ _ H) as Hinv.
  assert (HNI : names w' = names w /\ inodes w' = inodes w /\ r <> Hang /\
                forall e, r <> Fail e).
  { destruct Hinv as [(-> & N & I & _)|(b & -> & N & I & _)]; by repeat split. }
  destruct HNI as (N & I & Hh & He).
  split; [done|]. split; [done|]. split; [done|]. split; [done|].
  unfold ShredGo.isFileLocked, catch, bind, ret, os_OpenFile, Flock_NB, syscall,
    next_fate in H.
  unfold file_at in *. split.
  - intros ->.
    destruct (fates w) as [|[| |] fs] eqn:Ef; simpl in H; try done.
    + destruct (names w !! p) as [i|] eqn:En; [|done].
      destruct (inodes w !! i) as [f|] eqn:Ei; [|done].
      destruct (writable f) eqn:Ew; [|done]. rewrite Ef in H. simpl in H.
      rewrite Ei in H. destruct (locked f) eqn:El; [|done].
      exists i, f. auto.
    + destruct (names w !! p) as [i|] eqn:En; [|done].
      destruct (inodes w !! i) as [f|] eqn:Ei; [|done].
      destruct (writable f) eqn:Ew; [|done]. simpl in H.
      exists i, f. split; [done|]. split; [done|].
      destruct fs as [|[| |] fs']; simpl in H; rewrite ?Ei in H.
      * destruct (locked f); [by left|done].
      * destruct (locked f); [by left|done].
      * right. apply elem_of_cons. right. apply elem_of_cons. by left.
      * done.
  - intros Hf. rewrite Hf in H. simpl in H.
    destruct (names w !! p) as [i|] eqn:En; [|by simplify_eq].
    destruct (inodes w !! i) as [f|] eqn:Ei; [|by simplify_eq].
    destruct (writable f) eqn:Ew; [|by simplify_eq]. rewrite Hf in H. simpl in H.
    rewrite Ei in H. destruct (locked f) eqn:El; by simplify_eq.
Qed.

Lemma isFileLocked_answer_witness :
  let w := locked_disk in
  let r := (ShredGo.isFileLocked "f" w).1 in
  let w' := (ShredGo.isFileLocked "f" w).2 in
  names w' = names w /\ inodes w' = inodes w /\ r <> Hang /\ (forall e, r <> Fail e) /\
  (r = Ok true ->
   exists i f, file_at w "f" = Some (i, f) /\ writable f = true /\
     (locked f = true \/ Eio ∈ fates w)) /\
  (fates w = [] ->
   r = Ok (match file_at w "f" with
           | Some (_, f) => writable f && locked f
           | None => false
           end)).
Proof.
  apply (isFileLocked_answer "f" locked_disk). apply surjective_pairing.
Defined.

(** Property X5.  [randomString length] reads [length] bytes of entropy, the
    ones after those read before, and returns a string of exactly [length]
    characters, each a letter or a digit: no dot, no path separator.  It
    changes nothing on disk, and fails only when the entropy source does. *)
Theorem randomString_shape (length : nat) (w : World) (r : Res string) (w' : World) :
  randomString length w = (r, w') ->
  names w' = names w /\ inodes w' = inodes w /\
  (r = Fail EIO \/ r = Killed \/
   exists s, r = Ok s /\
     s = suffix_of (draw (rng w) (cursor w) length) /\
     String.length s = length /\
     forallb is_alnum (list_ascii_of_string s) = true /\
     cursor w' = (cursor w + length)%nat /\ rng w' = rng w).
Proof.
  unfold randomString, bind, ret, rand_Read, syscall, next_fate. intros H.
  assert (Hs : forall bs : bytes,
            String.length (suffix_of bs) = List.length bs /\
            forallb is_alnum (list_ascii_of_string (suffix_of bs)) = true).
  { intros bs. unfold suffix_of. split.
    - rewrite <- (length_map pick bs). generalize (map pick bs). intros l.
      induction l as [|c l IH]; simpl; congruence.
    - rewrite list_ascii_of_string_of_list_ascii. apply forallb_forall.
      intros c Hc. apply in_map_iff in Hc as (b & <- & _). apply pick_is_alnum. }
  destruct (fates w) as [|[| |] fs]; simpl in H; simplify_eq; simpl.
  all: split; [done|]; split; [done|]; auto.
  all: do 2 right; eexists; split; [done|]; split; [done|].
  all: destruct (Hs (draw (rng w) (cursor w) length)) as [Hl Ha].
  all: rewrite length_draw in Hl; done.
Qed.

Lemma randomString_shape_witness :
  let w := calm_disk in
  let r := (randomString 12 w).1 in
  let w' := (randomString 12 w).2 in
  names w' = names w /\ inodes w' = inodes w /\
  (r = Fail EIO \/ r = Killed \/
   exists s, r = Ok s /\
     s = suffix_of (draw (rng w) (cursor w) 12) /\
     String.length s = 12%nat /\
     forallb is_alnum (list_ascii_of_string s) = true /\
     cursor w' = (cursor w + 12)%nat /\ rng w' = rng w).
Proof.
  apply (randomString_shape 12 calm_disk). apply surjective_pairing.
Defined.

(** Property X6.  [overwriteDevice] on a regular file of at most [2^63 -
    4096] bytes.  However the run ends, the file holds [k] fresh blocks of
    4096 random bytes, followed by what it held before from offset [4096 *
    k] on; [k] is at most the number of blocks that cover the size, and is
    that number when the function returns nil: then every byte comes from
    the entropy source, and the file has grown to a multiple of 4096 bytes.
    No directory entry and no other file changes, and the call returns. *)
Theorem overwriteDevice_blocks (devicePath : string) (w : World) (i : nat) (f : Inode)
    (r : Res unit) (w' : World) :
  file_at w devicePath = Some (i, f) ->
  inode_size f <= 2 ^ 63 - 4096 ->
  overwriteDevice devicePath w = (r, w') ->
  let old := content_bytes (content f) in
  let n := blocks (inode_size f) in
  r <> Hang /\ names w' = names w /\
  (forall j, j <> i -> inodes w' !! j = inodes w !! j) /\
  exists (k : nat) (f' : Inode),
    (k <= n)%nat /\ inodes w' !! i = Some f' /\
    content_bytes (content f')
    = draw (rng w) (cursor w) (block_size * k) ++ drop (block_size * k) old /\
    (r = Ok tt ->
     k = n /\
     content_bytes (content f') = draw (rng w) (cursor w) (block_size * n) /\
     inode_size f' = 4096 * Z.of_nat n).
Proof.
  intros Hfile Hsize H old n.
  assert (Hfi : names w !! devicePath = Some i /\ inodes w !! i = Some f).
  { unfold file_at in Hfile. repeat case_match; by simplify_eq. }
  destruct Hfi as [Hni Hii].
  assert (H0 : forall w1, names w1 = names w -> inodes w1 = inodes w ->
            exists f', inodes w1 !! i = Some f' /\
              content_bytes (content f')
              = draw (rng w) (cursor w) (block_size * 0) ++ drop (block_size * 0) old).
  { intros w1 _ I1. exists f. split; [by rewrite I1|].
    by rewrite Nat.mul_0_r. }
  assert (Hstop : forall w1, names w1 = names w -> inodes w1 = inodes w ->
            (forall a, r <> Ok a) -> r <> Hang -> w1 = w' ->
            r <> Hang /\ names w' = names w /\
            (forall j, j <> i -> inodes w' !! j = inodes w !! j) /\
            exists (k : nat) (f' : Inode),
              (k <= n)%nat /\ inodes w' !! i = Some f' /\
              content_bytes (content f')
              = draw (rng w) (cursor w) (block_size * k) ++ drop (block_size * k) old /\
              (r = Ok tt ->
               k = n /\
               content_bytes (content f') = draw (rng w) (cursor w) (block_size * n) /\
               inode_size f' = 4096 * Z.of_nat n)).
  { intros w1 N1 I1 Hr Hh <-. split; [done|]. split; [done|].
    split; [intros; by rewrite I1|].
    destruct (H0 w1 N1 I1) as (f' & Hf' & Hc).
    exists 0%nat, f'. split; [lia|]. split; [done|]. split; [done|].
    intros ->. by destruct (Hr tt). }
  unfold overwriteDevice in H.
  apply bind_inv in H as [(device & w1 & H1 & H)|(Hr & r0 & H1 & Hr0 & Hm)].
  2:{ pose proof (os_OpenFile_Hang _ _ _ _ H1) as Hh.
      apply os_OpenFile_inv in H1 as ((N1&I1&_)&_).
      apply (Hstop w'); try done. by destruct r0, r. }
  pose proof (os_OpenFile_inv _ _ _ _ H1) as ((N1&I1&L1&R1&C1)&Hd).
  specialize (Hd _ eq_refl). rewrite Hni in Hd. injection Hd as <-.
  apply bind_inv in H as [(info & w2 & H2 & H)|(Hr & r0 & H2 & Hr0 & Hm)].
  2:{ apply File_Stat_inv in H2 as ((N2&I2&_)&Hh&_).
      apply (Hstop w'); try congruence. by destruct r0, r. }
  apply File_Stat_inv in H2 as ((N2&I2&L2&R2&C2)&_&HS).
  destruct (HS _ eq_refl) as (f0 & Hf0 & ->).
  rewrite I1, Hii in Hf0. injection Hf0 as <-.
  cbv zeta in H.
  assert (Hnn : 0 <= inode_size f) by (unfold inode_size; lia).
  destruct (write_blocks_spec i old (names w) (inodes w) (rng w) (cursor w)
              (inode_size f) (Z.to_nat (inode_size f / 4096) + 2) Hsize 0%nat w2 r w')
    as (Hh & HN & HI & k & _ & HB & Hno & Hyes & Hle).
  - unfold blocks.
    pose proof (Z.div_mod (inode_size f + 4095) 4096 ltac:(lia)).
    pose proof (Z.mod_pos_bound (inode_size f + 4095) 4096 ltac:(lia)).
    pose proof (Z.div_mod (inode_size f) 4096 ltac:(lia)).
    pose proof (Z.mod_pos_bound (inode_size f) 4096 ltac:(lia)).
    assert (0 <= inode_size f / 4096) by (apply Z.div_pos; lia).
    lia.
  - congruence.
  - congruence.
  - rewrite C2, C1. lia.
  - intros. by rewrite I2, I1.
  - destruct (H0 w2) as (f' & Hf' & Hc); [congruence|congruence|]. by exists f'.
  - exact H.
  - split; [done|]. split; [done|]. split; [done|].
    destruct HB as (f' & Hf' & Hc).
    assert (Hkn : (k <= n)%nat).
    { destruct (decide (0 < inode_size f)) as [Hp|Hz]; [apply Hle; lia|].
      destruct Hyes as [-> _]; lia. }
    exists k, f'. split; [done|]. split; [done|]. split; [done|].
    intros ->.
    assert (k = n) as ->.
    { destruct (decide (k < n)%nat) as [Hlt|]; [|lia].
      apply blocks_spec in Hlt; [|done]. by destruct (Hno Hlt tt). }
    split; [done|].
    assert (Hall : drop (block_size * n) old = []).
    { apply drop_ge. subst old n. unfold inode_size in *.
      destruct (decide (block_size * blocks (Z.of_nat (length (content_bytes (content f))))
                        < length (content_bytes (content f)))%nat) as [Hlt|]; [|lia].
      exfalso.
      assert (Hb : ~ (blocks (Z.of_nat (length (content_bytes (content f))))
                      < blocks (Z.of_nat (length (content_bytes (content f)))))%nat) by lia.
      apply Hb, blocks_spec; [lia|]. pose proof block_size_Z. lia. }
    rewrite Hall, app_nil_r in Hc. split; [done|].
    unfold inode_size. rewrite Hc, length_draw. pose proof block_size_Z. lia.
Qed.

Lemma overwriteDevice_blocks_witness :
  let w := disk1 "d" [1; 2; 3] [] in
  let r := (overwriteDevice "d" w).1 in
  let w' := (overwriteDevice "d" w).2 in
  r <> Hang /\ names w' = names w /\
  (forall j, j <> 0%nat -> inodes w' !! j = inodes w !! j) /\
  exists (k : nat) (f' : Inode),
    (k <= blocks 3)%nat /\ inodes w' !! 0%nat = Some f' /\
    content_bytes (content f')
    = draw (rng w) (cursor w) (block_size * k) ++ drop (block_size * k) [1; 2; 3] /\
    (r = Ok tt ->
     k = blocks 3 /\
     content_bytes (content f') = draw (rng w) (cursor w) (block_size * blocks 3) /\
     inode_size f' = 4096 * Z.of_nat (blocks 3)).
Proof.
  apply (overwriteDevice_blocks "d" (disk1 "d" [1; 2; 3] []) 0%nat
           (mkInode (Raw [1; 2; 3]) true false)).
  - reflexivity.
  - vm_compute. discriminate.
  - apply surjective_pairing.
Defined.

(** Property X7.  [overwriteDevice] at its edges.  The call always returns,
    whatever the size.  On a path that cannot be opened for writing it
    returns an error and changes nothing.  On a file of size 0 it writes
    nothing, and returns nil when the file can be opened and the environment
    does not interfere. *)
Theorem overwriteDevice_edge (devicePath : string) (w : World)
    (r : Res unit) (w' : World) :
  overwriteDevice devicePath w = (r, w') ->
  r <> Hang /\
  (unopenable w devicePath -> quiet w w' /\ forall a, r <> Ok a) /\
  (size_at w devicePath = 0 ->
   quiet w w' /\ (~ unopenable w devicePath -> fates w = [] -> r = Ok tt)).
Proof.
  intros H. unfold overwriteDevice in H.
  apply bind_inv in H as [(device & w1 & H1 & H)|(Hr & r0 & H1 & Hr0 & Hm)].
  2:{ pose proof (os_OpenFile_Hang _ _ _ _ H1) as Hh.
      pose proof (os_OpenFile_inv _ _ _ _ H1) as (Hq & _).
      split; [by destruct r0, r|]. split; [done|]. intros _. split; [done|].
      intros Hu Hf. exfalso. unfold os_OpenFile, syscall, next_fate in H1.
      rewrite Hf in H1. simpl in H1. unfold unopenable in Hu.
      destruct (file_at w devicePath) as [[j f]|]; [|by destruct Hu].
      destruct (writable f); [|by destruct Hu]. simplify_eq; by eapply Hr0. }
  destruct (os_OpenFile_file _ _ _ _ H1) as (f & Hfile & Hwr).
  pose proof (os_OpenFile_inv _ _ _ _ H1) as ((N1&I1&L1&R1&C1)&_).
  assert (Hfi : inodes w !! device = Some f).
  { unfold file_at in Hfile. repeat case_match; by simplify_eq. }
  assert (Hnu : ~ unopenable w devicePath).
  { unfold unopenable. rewrite Hfile. by rewrite Hwr. }
  apply bind_inv in H as [(info & w2 & H2 & H)|(Hr & r0 & H2 & Hr0 & Hm)].
  2:{ pose proof (File_Stat_inv _ _ _ _ H2) as (Hq & Hh & _).
      split; [by destruct r0, r|]. split; [done|]. intros _.
      split; [by eapply quiet_trans|].
      intros _ Hf. exfalso. unfold os_OpenFile, syscall, next_fate in H1.
      rewrite Hf in H1. simpl in H1. rewrite Hfile, Hwr in H1. simplify_eq.
      unfold File_Stat, syscall, next_fate in H2. rewrite Hf in H2. simpl in H2.
      rewrite Hfi in H2. simplify_eq; by eapply Hr0. }
  pose proof (File_Stat_inv _ _ _ _ H2) as (Hq & _ & HS).
  destruct (HS _ eq_refl) as (f0 & Hf0 & ->).
  rewrite I1, Hfi in Hf0. injection Hf0 as <-.
  cbv zeta in H.
  assert (Hnn : 0 <= inode_size f) by (unfold inode_size; lia).
  split; [|split; [done|]].
  - eapply write_blocks_returns; [|exact H].
    destruct (decide (inode_size f <= 0)) as [|Hp]; [by left|right; right].
    split; [lia|].
    assert ((inode_size f - 0 - 1) / 4096 <= inode_size f / 4096)
      by (apply Z.div_le_mono; lia).
    assert (0 <= (inode_size f - 0 - 1) / 4096) by (apply Z.div_pos; lia).
    lia.
  - intros Hz. unfold size_at in Hz. rewrite Hfile in Hz. rewrite Hz in H.
    change (Z.to_nat (0 / 4096) + 2)%nat with 2%nat in H.
    cbn [write_blocks] in H. change (0 <? 0) with false in H. cbv iota in H.
    unfold ret in H. simplify_eq.
    split; [eapply quiet_trans; [exact (conj N1 (conj I1 (conj L1 (conj R1 C1))))|done]|done].
Qed.

Lemma overwriteDevice_edge_witness :
  let w := disk1 "d" [] [] in
  let r := (overwriteDevice "d" w).1 in
  let w' := (overwriteDevice "d" w).2 in
  r <> Hang /\
  (unopenable w "d" -> quiet w w' /\ forall a, r <> Ok a) /\
  (size_at w "d" = 0 ->
   quiet w w' /\ (~ unopenable w "d" -> fates w = [] -> r = Ok tt)).
Proof.
  apply (overwriteDevice_edge "d" (disk1 "d" [] [])). apply surjective_pairing.
Defined.









(** Property X12.  A checkpoint that is already there decides which file is
    shredded.  Let the checkpoint file of [path] hold a record for [path]
    whose working path [V] is not empty (a record that an earlier,
    unfinished job left behind), while a file is there at [path] again.
    Then, when the environment injects no I/O error, a run of [Shred path]
    works on [V] only: however it ends, and also when it returns nil, [path]
    still names the same file and that file holds what it held. *)
Theorem stale_checkpoint (path : string) (passes : Z) (w : World)
    (i fd : nat) (f g : Inode) (m : ShredMetadata) (r : Res unit) (w' : World) :
  file_at w (path +:+ meta_suffix) = Some (i, f) ->
  content f = Json m ->
  OriginalPath m = path ->
  TempPath m <> "" -> TempPath m <> path +:+ meta_suffix ->
  TempPath m <> path -> ~ extends (TempPath m) path ->
  file_at w path = Some (fd, g) ->
  names w !! TempPath m <> Some fd -> i <> fd ->
  Eio ∉ fates w ->
  ShredGo.Shred path passes w = (r, w') ->
  names w' !! path = Some fd /\ inodes w' !! fd = Some g.
Proof.
  intros Hcp Hc Ho Hne Hncp Hnp Hnext Hfile HV Hi Hf H.
  destruct (file_at_inv _ _ _ _ Hfile) as [Hn Hg].
  destruct (file_at_inv _ _ _ _ Hcp) as [Hncpi _].
  assert (Hwf : wf_checkpoint w path).
  { intros i' f' m' Hf' Hc'. rewrite Hcp in Hf'. simplify_eq. rewrite Hc in Hc'.
    by simplify_eq. }
  destruct (ShredGo_apart _ _ _ _ _ Hwf H)
    as [(N & I & _)|(info & w1 & md0 & w2 & H1 & H2 & Hld & Hnames & Hinodes)].
  { by rewrite N, I. }
  assert (md0 = m) as ->.
  { pose proof (os_Stat_fates _ _ _ _ H1 Hf) as Hf1.
    apply os_Stat_inv in H1 as ((N1 & I1 & _) & _).
    eapply load_or_init_record; [exact H2| |exact Hc|exact Hf1].
    unfold file_at in *. by rewrite N1, I1. }
  assert (HW : working_name path m = TempPath m).
  { unfold working_name. by rewrite decide_False. }
  rewrite HW in Hnames, Hinodes. split.
  - rewrite Hnames; [done| |by apply not_eq_sym, append_ne_self].
    intros [?|?]; [by apply Hnp|done].
  - apply (Hinodes fd g); [|done]. split; [done|]. rewrite Hncpi. congruence.
Qed.

Lemma stale_checkpoint_witness :
  let w' := (ShredGo.Shred "f" 2 stale_disk).2 in
  names w' !! "f" = Some 0%nat /\
  inodes w' !! 0%nat = Some (mkInode (Raw [1; 2; 3]) true false).
Proof.
  apply (stale_checkpoint "f" 2 stale_disk 1%nat 0%nat
           (mkInode (Json (mkMeta 1 "g" "f")) true false)
           (mkInode (Raw [1; 2; 3]) true false) (mkMeta 1 "g" "f")
           (ShredGo.Shred "f" 2 stale_disk).1).
  - reflexivity.
  - reflexivity.
  - reflexivity.
  - discriminate.
  - discriminate.
  - discriminate.
  - intros (x & _ & Hx). discriminate Hx.
  - reflexivity.
  - vm_compute. discriminate.
  - discriminate.
  - apply not_elem_of_nil.
  - apply surjective_pairing.
Defined.

(** Property X13.  The [Shred] that works on a temporary file never writes
    to a file that exists when it starts: every inode of the initial disk,
    the one of [path] included, is the same when the run ends, however it
    ends, and every write of the run goes to an inode that did not exist. *)
Theorem tempfile_shred_keeps_data (path : string) (passes : Z) (w : World)
    (r : Res unit) (w' : World) :
  ShredTemp.Shred path passes w = (r, w') ->
  (forall i f, inodes w !! i = Some f -> inodes w' !! i = Some f) /\
  exists D, log w' = log w ++ D /\
    forall fd bs, EvWrite fd bs ∈ D -> inodes w !! fd = None.
Proof.
  intros H. apply ShredTemp_run in H. unfold temp_shape in H. cbv zeta in H.
  destruct H as [(_ & _ & I & L)|(_ & I & k & D & _ & L & HD)].
  - split; [intros; by rewrite I|].
    destruct L as [L|L]; [exists []; rewrite app_nil_r|eexists]; (split; [done|]).
    + intros ?? Hin. by apply elem_of_nil in Hin.
    + intros ?? Hin. apply list_elem_of_singleton in Hin. discriminate Hin.
  - split.
    + intros i f Hi. rewrite I; [done|]. intros ->. by rewrite fresh_ino_fresh in Hi.
    + eexists. split; [exact L|]. intros fd bs Hin.
      assert (Hfd : fd = fresh_ino w \/ EvWrite fd bs ∈ D).
      { apply elem_of_cons in Hin as [?|Hin]; [done|].
        apply elem_of_cons in Hin as [?|Hin]; [done|].
        apply elem_of_app in Hin as [Hin|Hin]; [|by right].
        apply elem_of_replicate in Hin as [Hin _]. injection Hin as -> _. by left. }
      destruct Hfd as [->|Hin']; [apply fresh_ino_fresh|].
      exfalso. clear Hin.
      destruct HD as [(_ & _ & [[-> _]|[-> _]])|[(_ & _ & _ & -> & _)|(_ & _ & -> & _)]].
      all: repeat (apply elem_of_cons in Hin' as [?|Hin']; [done|]); by apply elem_of_nil in Hin'.
Qed.

Lemma tempfile_shred_keeps_data_witness :
  let r := (ShredTemp.Shred "f" 2 calm_disk).1 in
  let w' := (ShredTemp.Shred "f" 2 calm_disk).2 in
  (forall i f, inodes calm_disk !! i = Some f -> inodes w' !! i = Some f) /\
  exists D, log w' = log calm_disk ++ D /\
    forall fd bs, EvWrite fd bs ∈ D -> inodes calm_disk !! fd = None.
Proof.
  apply (tempfile_shred_keeps_data "f" 2 calm_disk (ShredTemp.Shred "f" 2 calm_disk).1).
  apply surjective_pairing.
Defined.

(** Property X14.  The directory after a run of the [Shred] that works on a
    temporary file.  However the run ends, the directory is the initial one,
    or the initial one with the temporary file added, or with [path] naming
    the temporary file, or without [path]; no other entry changes at any
    point.  When the call returns nil, [path] is gone, the temporary name is
    gone, and the run consisted of one draw of random bytes as long as the
    file, the creation of the temporary file, [passes] writes of those same
    bytes to it (none when [passes <= 0]), its rename onto [path] and the
    removal of [path].  When the call returns an error, [path] still names a
    file. *)
Theorem tempfile_shred_directory (path : string) (passes : Z) (w : World)
    (r : Res unit) (w' : World) :
  ShredTemp.Shred path passes w = (r, w') ->
  let t := fresh_ino w in
  let name := temp_name w in
  let bs := draw (rng w) (cursor w) (Z.to_nat (size_at w path)) in
  names w !! name = None /\
  (names w' = names w \/ names w' = <[name := t]> (names w) \/
   names w' = <[path := t]> (names w) \/ names w' = delete path (names w)) /\
  (r = Ok tt ->
   names w' = delete path (names w) /\
   log w' = log w ++ [EvRand bs; EvCreate name] ++
            replicate (Z.to_nat passes) (EvWrite t bs) ++
            [EvRename name path; EvRemove path]) /\
  (forall e, r = Fail e ->
     is_Some (names w !! path) -> is_Some (names w' !! path)).
Proof.
  intros H. apply ShredTemp_run in H. unfold temp_shape in H. cbv zeta in *.
  pose proof (temp_name_fresh w) as Hfresh. split; [done|].
  destruct H as [(Hr & N & _)|(Hp & _ & k & D & _ & L & HD)].
  - split; [by left|]. split; [intros ->; by destruct (Hr tt)|].
    intros e _ Hs. by rewrite N.
  - assert (Hnp : temp_name w <> path) by (intros Heq; rewrite Heq in Hfresh; rewrite Hfresh in Hp; by destruct Hp).
    destruct HD as [(Hr & _ & [[-> N]|[-> N]])|[(Hr & _ & _ & -> & N)|(Hr & -> & -> & N)]].
    + split; [auto|]. split; [intros ->; by destruct (Hr tt)|].
      intros e _ _. by rewrite N, lookup_insert_ne.
    + split; [auto|]. split; [intros ->; by destruct (Hr tt)|].
      intros e _ _. by rewrite N.
    + split; [auto|]. split; [intros ->; by destruct (Hr tt)|].
      intros e _ _. rewrite N, lookup_insert_eq. by eexists.
    + split; [auto|]. split; [done|].
      intros e -> _. by destruct Hr.
Qed.

Lemma tempfile_shred_directory_witness :
  let w := calm_disk in
  let r := (ShredTemp.Shred "f" 2 w).1 in
  let w' := (ShredTemp.Shred "f" 2 w).2 in
  let t := fresh_ino w in
  let name := temp_name w in
  let bs := draw (rng w) (cursor w) (Z.to_nat (size_at w "f")) in
  names w !! name = None /\
  (names w' = names w \/ names w' = <[name := t]> (names w) \/
   names w' = <["f" := t]> (names w) \/ names w' = delete "f" (names w)) /\
  (r = Ok tt ->
   names w' = delete "f" (names w) /\
   log w' = log w ++ [EvRand bs; EvCreate name] ++
            replicate (Z.to_nat 2) (EvWrite t bs) ++
            [EvRename name "f"; EvRemove "f"]) /\
  (forall e, r = Fail e ->
     is_Some (names w !! "f") -> is_Some (names w' !! "f")).
Proof.
  apply (tempfile_shred_directory "f" 2 calm_disk (ShredTemp.Shred "f" 2 calm_disk).1).
  apply surjective_pairing.
Defined.

(** Property X15.  The [Shred] that works on a temporary file reports
    success without having touched the data.  On a file that can be written
    and is not locked, in an environment that does not interfere, it returns
    nil for every number of passes and every size; [path] is then gone from
    the directory and nothing else in the directory has changed, but the
    bytes that [path] named are all still in the file's inode: the random
    bytes went to the temporary file only. *)
Theorem tempfile_job_succeeds (path : string) (passes : Z) (w : World)
    (fd : nat) (f : Inode) :
  file_at w path = Some (fd, f) -> fates w = [] ->
  writable f = true -> locked f = false ->
  exists w',
    ShredTemp.Shred path passes w = (Ok tt, w') /\
    names w' = delete path (names w) /\
    inodes w' !! fd = Some f /\
    exists D, log w' = log w ++ D /\ forall bs, EvWrite fd bs ∉ D.
Proof.
  intros Hfile Hf Hwr Hlk. destruct (file_at_inv _ _ _ _ Hfile) as [Hn Hi].
  destruct (ShredTemp_returns path passes w fd f Hfile Hf Hwr Hlk) as (w' & H).
  exists w'. split; [done|].
  assert (Hfd : fd <> fresh_ino w).
  { intros ->. by rewrite fresh_ino_fresh in Hi. }
  destruct (ShredTemp_run _ _ _ _ _ H) as [(Hno & _)|(_ & Hoth & k & D & Hk & HL & HD)].
  { by destruct (Hno tt). }
  destruct HD as [(Hno & _)|[(Hno & _)|(_ & -> & -> & HN)]];
    [by destruct (Hno tt)|by destruct (Hno tt)|].
  split; [done|]. split; [by rewrite Hoth|].
  eexists. split; [exact HL|]. intros bs.
  rewrite !elem_of_app, !elem_of_cons, elem_of_replicate, !elem_of_nil.
  intros [[?|[?|?]]|[[? _]|[?|[?|?]]]]; try done; simplify_eq.
Qed.

Lemma tempfile_job_succeeds_witness :
  let w := calm_disk in
  let f := mkInode (Raw [1; 2; 3]) true false in
  exists w',
    ShredTemp.Shred "f" 3 w = (Ok tt, w') /\
    names w' = delete "f" (names w) /\
    inodes w' !! 0%nat = Some f /\
    exists D, log w' = log w ++ D /\ forall bs, EvWrite 0%nat bs ∉ D.
Proof.
  apply (tempfile_job_succeeds "f" 3 calm_disk 0%nat (mkInode (Raw [1; 2; 3]) true false)).
  - reflexivity.
  - reflexivity.
  - reflexivity.
  - reflexivity.
Defined.

(** Property X16.  The two versions of [Shred] that open the file before
    they change anything (the one that works on a temporary file and the one
    of part_000), on a file they cannot work on, in an environment that does
    not interfere.  A file without write permission: both return the
    permission error.  A writable file that another process keeps locked:
    both wait for the lock and do not return.  In either case nothing on
    disk has changed; part_000 has run its (void) check of the path. *)
Theorem open_before_change (path : string) (passes : Z) (w : World)
    (i : nat) (f : Inode) :
  file_at w path = Some (i, f) -> fates w = [] ->
  (writable f = false ->
   ShredTemp.Shred path passes w = (Fail EACCES, w) /\
   (inode_size f <= size_limit ->
    Part000.Shred path passes w = (Fail EACCES, emit (EvGuard path false) w))) /\
  (writable f = true -> locked f = true ->
   ShredTemp.Shred path passes w = (Hang, w) /\
   (inode_size f <= size_limit ->
    Part000.Shred path passes w = (Hang, emit (EvGuard path false) w))).
Proof.
  intros Hfile Hf. destruct (file_at_inv _ _ _ _ Hfile) as [Hn Hi].
  set (w1 := emit (EvGuard path false) w).
  assert (Hfile1 : file_at w1 path = Some (i, f)).
  { unfold file_at. simpl. by rewrite Hn, Hi. }
  destruct (load_or_init_calm path w1 Hf) as (md & Hl & _).
  assert (Hstart : inode_size f <= size_limit ->
    Part000.Shred path passes w
    = (let* file := os_OpenFile path in
       let* _ := Flock file in
       let size := inode_size f in
       let* metadata := rename_once path md in
       let* tempFile := os_OpenFile (TempPath metadata) in
       let* metadata :=
         Part000.overwrite_passes (Z.to_nat (passes - Pass metadata)) (Pass metadata)
           tempFile (Z.to_nat size) metadata in
       let* metadata := rename_rounds 10 metadata in
       finish tempFile metadata) w1).
  { intros Hsz. unfold Part000.Shred.
    rewrite (bind_Ok _ _ _ _ _ (os_Stat_calm _ _ _ _ Hf Hfile)).
    rewrite (proj2 (Z.ltb_ge _ _)) by done.
    unfold Part000.isFileLocked at 1. unfold bind at 1. fold w1.
    by rewrite (bind_Ok _ _ _ _ _ Hl). }
  split.
  - intros Hw. split.
    + unfold ShredTemp.Shred.
      erewrite bind_Fail; [done|]. rewrite (os_OpenFile_calm _ _ _ _ Hf Hfile). by rewrite Hw.
    + intros Hsz. rewrite (Hstart Hsz).
      erewrite bind_Fail; [done|].
      rewrite (os_OpenFile_calm _ w1 i f Hf Hfile1). by rewrite Hw.
  - intros Hw Hlk. split.
    + unfold ShredTemp.Shred.
      rewrite (bind_Ok _ _ _ i w); [|rewrite (os_OpenFile_calm _ _ _ _ Hf Hfile); by rewrite Hw].
      erewrite bind_Hang; [done|]. rewrite (Flock_calm _ _ _ Hf Hi). by rewrite Hlk.
    + intros Hsz. rewrite (Hstart Hsz).
      rewrite (bind_Ok _ _ _ i w1);
        [|rewrite (os_OpenFile_calm _ w1 i f Hf Hfile1); by rewrite Hw].
      erewrite bind_Hang; [done|].
      rewrite (Flock_calm _ w1 f Hf Hi). by rewrite Hlk.
Qed.

Lemma open_before_change_witness :
  let w := locked_disk in
  let f := mkInode (Raw [1; 2; 3]) true true in
  (writable f = false ->
   ShredTemp.Shred "f" 3 w = (Fail EACCES, w) /\
   (inode_size f <= size_limit ->
    Part000.Shred "f" 3 w = (Fail EACCES, emit (EvGuard "f" false) w))) /\
  (writable f = true -> locked f = true ->
   ShredTemp.Shred "f" 3 w = (Hang, w) /\
   (inode_size f <= size_limit ->
    Part000.Shred "f" 3 w = (Hang, emit (EvGuard "f" false) w))).
Proof.
  apply (open_before_change "f" 3 locked_disk 0%nat (mkInode (Raw [1; 2; 3]) true true)).
  - reflexivity.
  - reflexivity.
Defined.
